(** * clReflect: the runtime reflection database and its array helpers

    A shallow embedding of
    - [src/clReflectCpp/Database.cpp] (the hash-indexed binary search and the
      [crcpp::Database] facade),
    - [inc/crcpp/Database.h] and [inc/clcpp/Database.h] (the primitive model
      and its checked casts),
    - the procedural [CArray] operations of clReflectExport
      ([shallow_copy], [unstable_remove]),
    - the [clutl::DataBuffer] byte cursor,
    followed by the properties established about them. *)

From stdpp Require Import base numbers option list gmap strings.

Local Open Scope Z_scope.

(** ** Machine integers

    [unsigned int] and [int] are 32 bits wide on the targets of the library.
    Values are kept in [Z]; every operation of the source that can leave the
    range is followed by the wrap-around it has on the machine. *)

Definition wrap_uint (z : Z) : Z := z mod 2 ^ 32.

(** Conversion to [int]: the two's complement reading of the low 32 bits. *)
Definition wrap_int (z : Z) : Z := (z + 2 ^ 31) mod 2 ^ 32 - 2 ^ 31.

Definition is_uint (z : Z) : Prop := 0 <= z < 2 ^ 32.

(** ** Outcomes of a call

    A call either returns, stops in a failed [internal::Assert], or runs into
    behaviour the language leaves undefined (a null or dangling pointer is
    dereferenced).  [OutOfFuel] only bounds the unrolling of loops in the
    model. *)

Inductive outcome (A : Type) : Type :=
  | Ret (a : A)
  | AssertFailure
  | Undefined
  | OutOfFuel.

Arguments Ret {A} a.
Arguments AssertFailure {A}.
Arguments Undefined {A}.
Arguments OutOfFuel {A}.

#[global] Instance outcome_ret : MRet outcome := @Ret.

#[global] Instance outcome_bind : MBind outcome := λ A B f m,
  match m with
  | Ret a => f a
  | AssertFailure => AssertFailure
  | Undefined => Undefined
  | OutOfFuel => OutOfFuel
  end.

(** Modelled from the spec: [internal::Assert] is declared in Core.h, which is
    not among the sources.  A contract violation "must abort loudly
    (assertion)": a false condition stops the call. *)
Definition Assert (expression : bool) : outcome unit :=
  if expression then Ret tt else AssertFailure.

(** Reading through a pointer: an address that holds no object is undefined
    behaviour. *)
Definition deref {A : Type} (o : option A) : outcome A :=
  match o with
  | Some a => Ret a
  | None => Undefined
  end.

(** Pointers are addresses; the null pointer is address 0. *)
Definition ptr : Type := Z.
Definition NULL : ptr := 0.

(** ** Read-only arrays of the loaded database

    Modelled from the spec: [CArray] of Core.h is the non-owning view
    "{pointer, length}".  In the loaded database it is never written, so it is
    represented by the list of its elements; [operator[]] checks its index as
    the [CArray] of clReflectExport does ([Assert(index < size)], the index
    being unsigned). *)

Definition CArray_size {T : Type} (entries : list T) : Z :=
  wrap_uint (Z.of_nat (length entries)).

Definition CArray_at {T : Type} (entries : list T) (index : Z) : outcome T :=
  Assert (bool_decide (wrap_uint index < CArray_size entries));;
  deref (entries !! Z.to_nat (wrap_uint index)).

(** ** Database.cpp: binary search *)

Section BinarySearch.
Context {ARRAY_TYPE COMPARE_L_TYPE COMPARE_R_TYPE : Type}.
(** The implicit conversion of an array element to the left argument of the
    comparison ([Namespace] to [const Primitive&]), and [COMPARE_FUNC]. *)
Variable convert : ARRAY_TYPE → COMPARE_L_TYPE.
Variable COMPARE_FUNC : COMPARE_L_TYPE → COMPARE_R_TYPE → outcome Z.

(** The [while (first <= last)] loop; one unit of fuel per iteration. *)
Fixpoint BinarySearch_loop (fuel : nat) (entries : list ARRAY_TYPE)
    (compare_value : COMPARE_R_TYPE) (first last : Z) : outcome Z :=
  if bool_decide (first <= last) then
    match fuel with
    | O => OutOfFuel
    | S fuel' =>
        let mid := Z.quot (wrap_int (first + last)) 2 in
        e ← CArray_at entries mid;
        cmp ← COMPARE_FUNC (convert e) compare_value;
        if bool_decide (cmp > 0) then
          BinarySearch_loop fuel' entries compare_value (wrap_int (mid + 1)) last
        else if bool_decide (cmp < 0) then
          BinarySearch_loop fuel' entries compare_value first (wrap_int (mid - 1))
        else
          Ret mid
    end
  else Ret (-1).

Definition BinarySearch (entries : list ARRAY_TYPE)
    (compare_value : COMPARE_R_TYPE) : outcome Z :=
  let first := 0 in
  let last := wrap_int (CArray_size entries - 1) in
  BinarySearch_loop (S (length entries)) entries compare_value first last.
End BinarySearch.

(** ** The primitive model

    [Name] is declared with the same members in crcpp/Database.h and
    clcpp/Database.h.  [text] points into the name blob: [None] is the null
    pointer. *)

Record Name : Type := mkName { hash : Z; text : option string }.

(** The constructor [Name() : hash(0), text(0)]. *)
Definition Name_default : Name := {| hash := 0; text := None |}.

(** *** crcpp/Database.h and Database.cpp *)

Module crcpp.

Inductive Kind : Type :=
  | KIND_NONE
  | KIND_TYPE
  | KIND_ENUM_CONSTANT
  | KIND_ENUM
  | KIND_FIELD
  | KIND_FUNCTION
  | KIND_CLASS
  | KIND_NAMESPACE.

#[global] Instance Kind_eq_dec : EqDecision Kind.
Proof. solve_decision. Defined.

(** The base sub-object shared by every reflected primitive. *)
Record Primitive : Type := mkPrimitive {
  kind : Kind;
  name : Name;
  parent : ptr
}.

(** The objects of the database block: the [Primitive] base found at each
    address that holds a primitive ([Type], [Enum], [Class], [Namespace],
    ... all start with it).  An array of primitives, whether it stores
    pointers or the records themselves, is the list of the addresses of its
    entries. *)
Abbreviation store := (gmap Z Primitive).

Definition CompareNames (name : Name) (hash_ : Z) : outcome Z :=
  Ret (wrap_int (wrap_uint (hash_ - hash name))).

(** [ComparePrimitives(const Primitive*, unsigned int)]. *)
Definition ComparePrimitives (σ : store) (primitive : ptr) (hash_ : Z)
    : outcome Z :=
  p ← deref (σ !! primitive);
  Ret (wrap_int (wrap_uint (hash_ - hash (name p)))).

(** [ComparePrimitives(const Primitive&, unsigned int)]; the reference is
    the address of the array element. *)
Definition ComparePrimitives_ref (σ : store) (primitive : ptr) (hash_ : Z)
    : outcome Z :=
  p ← deref (σ !! primitive);
  Ret (wrap_int (wrap_uint (hash_ - hash (name p)))).

(** [internal::FindPrimitive]. *)
Definition FindPrimitive (σ : store) (primitives : list ptr) (hash_ : Z)
    : outcome ptr :=
  index ← BinarySearch id (ComparePrimitives σ) primitives hash_;
  if bool_decide (index = -1) then Ret NULL
  else CArray_at primitives index.

(** The typed wrapper [FindPrimitive<TYPE>]; [KIND] is [TYPE::KIND].  Both
    casts leave the addresses as they are. *)
Definition FindPrimitive_typed (KIND : Kind) (σ : store)
    (primitives : list ptr) (hash_ : Z) : outcome ptr :=
  Assert (bool_decide (KIND ≠ KIND_NONE));;
  FindPrimitive σ primitives hash_.

(** [Type::AsEnum] and [Type::AsClass]: the kind is checked, the address is
    returned unchanged. *)
Definition AsEnum (σ : store) (this : ptr) : outcome ptr :=
  p ← deref (σ !! this);
  Assert (bool_decide (kind p = KIND_ENUM));;
  Ret this.

Definition AsClass (σ : store) (this : ptr) : outcome ptr :=
  p ← deref (σ !! this);
  Assert (bool_decide (kind p = KIND_CLASS));;
  Ret this.

(** [internal::DatabaseMem]. *)
Record DatabaseMem : Type := mkDatabaseMem {
  name_text_data : ptr;
  names : list Name;
  types : list ptr;
  enum_constants : list ptr;
  enums : list ptr;
  fields : list ptr;
  functions : list ptr;
  classes : list ptr;
  namespaces : list ptr;
  type_primitives : list ptr;
  global_namespace : ptr
}.

(** The facade owns the block exclusively; [None] is the null
    [m_DatabaseMem]. *)
Record Database : Type := mkDatabase {
  m_DatabaseMem : option DatabaseMem
}.

(** [Database::Database()]. *)
Definition Database_new : Database := {| m_DatabaseMem := None |}.

(** [clcpp::Database::IsLoaded] (clcpp/Database.h), the accessor the
    facade has after its renaming; it reads the member [Load] assigns. *)
Definition IsLoaded (this : Database) : bool :=
  bool_decide (is_Some (m_DatabaseMem this)).

Section Database.
(** Not among the sources: the name hash of Core.h, the file interface
    and the loader of DatabaseLoader.h. *)
Variable HashNameString : string → Z.
Variable IFile : Type.
Variable LoadMemoryMappedDatabase : IFile → option DatabaseMem.

Definition GetName (this : Database) (text_ : option string)
    : outcome Name :=
  match text_ with
  | None => Ret Name_default
  | Some s =>
      let hash_ := wrap_uint (HashNameString s) in
      if bool_decide (hash_ = 0) then Ret Name_default
      else
        mem ← deref (m_DatabaseMem this);
        index ← BinarySearch id CompareNames (names mem) hash_;
        if bool_decide (index = -1) then Ret Name_default
        else CArray_at (names mem) index
  end.

Definition GetType (σ : store) (this : Database) (hash_ : Z)
    : outcome ptr :=
  mem ← deref (m_DatabaseMem this);
  FindPrimitive_typed KIND_TYPE σ (type_primitives mem) hash_.

Definition GetNamespace (σ : store) (this : Database) (hash_ : Z)
    : outcome ptr :=
  mem ← deref (m_DatabaseMem this);
  index ← BinarySearch id (ComparePrimitives_ref σ) (namespaces mem) hash_;
  if bool_decide (index = -1) then Ret NULL
  else CArray_at (namespaces mem) index.

Definition GetFunction (σ : store) (this : Database) (hash_ : Z)
    : outcome ptr :=
  mem ← deref (m_DatabaseMem this);
  index ← BinarySearch id (ComparePrimitives_ref σ) (functions mem) hash_;
  if bool_decide (index = -1) then Ret NULL
  else CArray_at (functions mem) index.

(** [Load] returns the facade after the assignment and the boolean. *)
Definition Load (this : Database) (file : IFile) : Database * bool :=
  let this' := {| m_DatabaseMem := LoadMemoryMappedDatabase file |} in
  (this', bool_decide (is_Some (m_DatabaseMem this'))).
End Database.

End crcpp.

(** *** clcpp/Database.h: the extended profile *)

Module clcpp.

Inductive Kind : Type :=
  | KIND_NONE
  | KIND_ATTRIBUTE
  | KIND_FLAG_ATTRIBUTE
  | KIND_INT_ATTRIBUTE
  | KIND_FLOAT_ATTRIBUTE
  | KIND_NAME_ATTRIBUTE
  | KIND_TEXT_ATTRIBUTE
  | KIND_TYPE
  | KIND_ENUM_CONSTANT
  | KIND_ENUM
  | KIND_FIELD
  | KIND_FUNCTION
  | KIND_TEMPLATE_TYPE
  | KIND_TEMPLATE
  | KIND_CLASS
  | KIND_NAMESPACE.

#[global] Instance Kind_eq_dec : EqDecision Kind.
Proof. solve_decision. Defined.

Record Primitive : Type := mkPrimitive {
  kind : Kind;
  name : Name;
  parent : ptr
}.

Abbreviation store := (gmap Z Primitive).

(** Casts from [const Type*]. *)
Definition AsEnum (σ : store) (this : ptr) : outcome ptr :=
  p ← deref (σ !! this);
  Assert (bool_decide (kind p = KIND_ENUM));;
  Ret this.

Definition AsTemplateType (σ : store) (this : ptr) : outcome ptr :=
  p ← deref (σ !! this);
  Assert (bool_decide (kind p = KIND_TEMPLATE_TYPE));;
  Ret this.

Definition AsClass (σ : store) (this : ptr) : outcome ptr :=
  p ← deref (σ !! this);
  Assert (bool_decide (kind p = KIND_CLASS));;
  Ret this.

(** Casts from [const Attribute*]. *)
Definition AsIntAttribute (σ : store) (this : ptr) : outcome ptr :=
  p ← deref (σ !! this);
  Assert (bool_decide (kind p = KIND_INT_ATTRIBUTE));;
  Ret this.

Definition AsFloatAttribute (σ : store) (this : ptr) : outcome ptr :=
  p ← deref (σ !! this);
  Assert (bool_decide (kind p = KIND_FLOAT_ATTRIBUTE));;
  Ret this.

Definition AsNameAttribute (σ : store) (this : ptr) : outcome ptr :=
  p ← deref (σ !! this);
  Assert (bool_decide (kind p = KIND_NAME_ATTRIBUTE));;
  Ret this.

Definition AsTextAttribute (σ : store) (this : ptr) : outcome ptr :=
  p ← deref (σ !! this);
  Assert (bool_decide (kind p = KIND_TEXT_ATTRIBUTE));;
  Ret this.

(** [Qualifier] and its [operator ==]. *)
Inductive Operator : Type := VALUE | POINTER | REFERENCE.

#[global] Instance Operator_eq_dec : EqDecision Operator.
Proof. solve_decision. Defined.

Record Qualifier : Type := mkQualifier { op : Operator; is_const : bool }.

(** [Qualifier() : op(VALUE), is_const(false)]. *)
Definition Qualifier_new : Qualifier := {| op := VALUE; is_const := false |}.

Definition Qualifier_eq (this rhs : Qualifier) : bool :=
  bool_decide (op this = op rhs) && bool_decide (is_const this = is_const rhs).

(** The [Primitive] base as the constructors leave it:
    [Primitive(Kind k) : kind(k), parent(0)], the name default-constructed.
    Every node type passes its own [KIND] up to it. *)
Definition Primitive_new (k : Kind) : Primitive :=
  {| kind := k; name := Name_default; parent := NULL |}.

Definition Attribute_new : Primitive := Primitive_new KIND_ATTRIBUTE.
Definition FlagAttribute_new : Primitive := Primitive_new KIND_FLAG_ATTRIBUTE.
Definition IntAttribute_new : Primitive := Primitive_new KIND_INT_ATTRIBUTE.
Definition FloatAttribute_new : Primitive := Primitive_new KIND_FLOAT_ATTRIBUTE.
Definition NameAttribute_new : Primitive := Primitive_new KIND_NAME_ATTRIBUTE.
Definition TextAttribute_new : Primitive := Primitive_new KIND_TEXT_ATTRIBUTE.
Definition Type_new : Primitive := Primitive_new KIND_TYPE.
Definition Enum_new : Primitive := Primitive_new KIND_ENUM.
Definition TemplateType_new : Primitive := Primitive_new KIND_TEMPLATE_TYPE.
Definition Class_new : Primitive := Primitive_new KIND_CLASS.

End clcpp.

(** ** clReflectExport: procedural operations on [clcpp::CArray]

    These arrays are written to, and [shallow_copy] makes two of them share
    one element range, so both the array objects and the element ranges live
    in a memory that the operations thread through. *)

Module Array.

(** The members of [clcpp::CArray<TYPE>]. *)
Record CArray : Type := mkCArray {
  size : Z;
  data : ptr;
  allocator : ptr
}.

Section Operations.
Context {TYPE : Type}.

(** [arrays] holds the array objects by address; [storage] holds, at the
    address of its first element, each allocated range of elements. *)
Record memory : Type := mkMemory {
  arrays : gmap Z CArray;
  storage : gmap Z (list TYPE)
}.

Definition load_array (m : memory) (a : ptr) : outcome CArray :=
  deref (arrays m !! a).

Definition store_array (m : memory) (a : ptr) (v : CArray) : memory :=
  {| arrays := <[a := v]> (arrays m); storage := storage m |}.

Definition store_range (m : memory) (d : ptr) (r : list TYPE) : memory :=
  {| arrays := arrays m; storage := <[d := r]> (storage m) |}.

(** The three assignments, in the order of the source; each reads [src]
    in the memory the previous one left. *)
Definition shallow_copy (m : memory) (dest src : ptr) : outcome memory :=
  s ← load_array m src;
  d ← load_array m dest;
  let m := store_array m dest
             {| size := size s; data := data d; allocator := allocator d |} in
  s ← load_array m src;
  d ← load_array m dest;
  let m := store_array m dest
             {| size := size d; data := data s; allocator := allocator d |} in
  s ← load_array m src;
  d ← load_array m dest;
  Ret (store_array m dest
         {| size := size d; data := data d; allocator := allocator s |}).

Definition unstable_remove (m : memory) (array : ptr) (index : Z)
    : outcome memory :=
  a ← load_array m array;
  Assert (bool_decide (index < size a));;
  (* array.data[index] = array.data[array.size - 1] *)
  range ← deref (storage m !! data a);
  last_ ← deref (range !! Z.to_nat (wrap_uint (size a - 1)));
  _ ← deref (range !! Z.to_nat index);
  let m := store_range m (data a) (<[Z.to_nat index := last_]> range) in
  (* array.size-- *)
  a ← load_array m array;
  Ret (store_array m array
         {| size := wrap_uint (size a - 1); data := data a;
            allocator := allocator a |}).

(** The elements an array shows: the first [size] of its range. *)
Definition elements (m : memory) (a : CArray) : option (list TYPE) :=
  range ← storage m !! data a;
  if bool_decide (size a <= Z.of_nat (length range))
  then Some (take (Z.to_nat (size a)) range) else None.
End Operations.

Arguments memory : clear implicits.

(** *** The RAII [CArray] of clReflectExport *)

Section Construction.
Context {TYPE : Type}.

(** Not among the sources: the address [IAllocator::Alloc] (Core.h) hands
    out, as a function of the ranges allocated so far, the allocator and the
    byte count; the size of an element; the value the default constructor
    of [TYPE] leaves ([internal::CallConstructor]); the content of an
    element that was allocated and not yet written. *)
Variable Alloc : gmap Z (list TYPE) → ptr → Z → ptr.
Variable sizeof_TYPE : Z.
Variable TYPE_new : TYPE.
Variable uninitialised : TYPE.

(** Modelled from the spec: the allocator is the external interface
    "alloc(size) -> block, free(block)".  [allocator->Alloc(bytes)] through a
    null allocator is undefined; a block that is not null holds as many
    elements as fit into [bytes]. *)
Definition allocate (m : memory TYPE) (allocator_ : ptr) (bytes : Z)
    : outcome (ptr * memory TYPE) :=
  if bool_decide (allocator_ = NULL) then Undefined
  else
    let p := Alloc (storage m) allocator_ bytes in
    if bool_decide (p = NULL) then Ret (p, m)
    else Ret (p, store_range m p
                   (replicate (Z.to_nat (bytes / sizeof_TYPE)) uninitialised)).

(** Modelled from the spec: [allocator->Free(data)] gives the block back;
    freeing what is not an allocated block is undefined. *)
Definition release (m : memory TYPE) (allocator_ data_ : ptr)
    : outcome (memory TYPE) :=
  if bool_decide (allocator_ = NULL) then Undefined
  else
    _ ← deref (storage m !! data_);
    Ret {| arrays := arrays m; storage := delete data_ (storage m) |}.

(** [CArray()]. *)
Definition CArray_new (m : memory TYPE) (this : ptr) : memory TYPE :=
  store_array m this {| size := 0; data := NULL; allocator := NULL |}.

(** [for (i = 0; i < size; i++) CallConstructor(data + i)], from [i] on for
    [n] more elements. *)
Fixpoint CallConstructor_loop (n i : nat) (m : memory TYPE) (data_ : ptr)
    : outcome (memory TYPE) :=
  match n with
  | O => Ret m
  | S n' =>
      range ← deref (storage m !! data_);
      _ ← deref (range !! i);
      CallConstructor_loop n' (S i)
        (store_range m data_ (<[i := TYPE_new]> range)) data_
  end.

(** [CArray(unsigned int _size, clcpp::IAllocator* _allocator)]; the three
    members are all assigned, the object is written once they are known. *)
Definition CArray_new_sized (m : memory TYPE) (this : ptr)
    (_size : Z) (_allocator : ptr) : outcome (memory TYPE) :=
  '(p, m) ← allocate m _allocator (wrap_uint (_size * sizeof_TYPE));
  m ← CallConstructor_loop (Z.to_nat _size) 0 m p;
  Ret (store_array m this
         {| size := _size; data := p; allocator := _allocator |}).

(** [CArray(TYPE* _data, unsigned int _size)]. *)
Definition CArray_new_view (m : memory TYPE) (this : ptr)
    (_data : ptr) (_size : Z) : memory TYPE :=
  store_array m this {| size := _size; data := _data; allocator := NULL |}.

(** [for (i = 0; i < size; i++) CallDestructor(data + i)]: the elements are
    plain values, the call only has to reach an element. *)
Fixpoint CallDestructor_loop (n i : nat) (m : memory TYPE) (data_ : ptr)
    : outcome unit :=
  match n with
  | O => Ret tt
  | S n' =>
      range ← deref (storage m !! data_);
      _ ← deref (range !! i);
      CallDestructor_loop n' (S i) m data_
  end.

(** [~CArray()]; afterwards the array object is gone. *)
Definition CArray_delete (m : memory TYPE) (this : ptr)
    : outcome (memory TYPE) :=
  a ← load_array m this;
  m ← (if bool_decide (allocator a ≠ NULL) then
         CallDestructor_loop (Z.to_nat (size a)) 0 m (data a);;
         release m (allocator a) (data a)
       else Ret m);
  Ret {| arrays := delete this (arrays m); storage := storage m |}.

(** [operator [] (unsigned int index)]. *)
Definition subscript (m : memory TYPE) (this : ptr) (index : Z)
    : outcome TYPE :=
  a ← load_array m this;
  Assert (bool_decide (index < size a));;
  range ← deref (storage m !! data a);
  deref (range !! Z.to_nat index).

(** [for (i = 0; i < dest.size; i++) dest.data[i] = src.data[i]]. *)
Fixpoint deep_copy_loop (n i : nat) (m : memory TYPE) (dest src : ptr)
    : outcome (memory TYPE) :=
  match n with
  | O => Ret m
  | S n' =>
      s ← load_array m src;
      from ← deref (storage m !! data s);
      x ← deref (from !! i);
      d ← load_array m dest;
      to ← deref (storage m !! data d);
      _ ← deref (to !! i);
      deep_copy_loop n' (S i)
        (store_range m (data d) (<[i := x]> to)) dest src
  end.

(** [deep_copy]; its first statement, [allocator = allocator], assigns the
    parameter to itself and leaves [dest.allocator] as it is. *)
Definition deep_copy (m : memory TYPE) (dest src : ptr) (allocator_ : ptr)
    : outcome (memory TYPE) :=
  Assert (bool_decide (allocator_ ≠ NULL));;
  s ← load_array m src;
  d ← load_array m dest;
  let m := store_array m dest
             {| size := size s; data := data d; allocator := allocator d |} in
  d ← load_array m dest;
  '(p, m) ← allocate m allocator_ (wrap_uint (size d * sizeof_TYPE));
  d ← load_array m dest;
  let m := store_array m dest
             {| size := size d; data := p; allocator := allocator d |} in
  d ← load_array m dest;
  deep_copy_loop (Z.to_nat (size d)) 0 m dest src.
End Construction.

(** An allocator that answers: the block it returns is not null and not one
    of the ranges in use. *)
Definition answers {TYPE : Type} (Alloc : gmap Z (list TYPE) → ptr → Z → ptr)
    : Prop :=
  ∀ st a n, Alloc st a n ≠ NULL ∧ Alloc st a n ∉ dom st.

(** An array whose range is in the memory and holds its [size] elements. *)
Definition well_formed {TYPE : Type} (m : memory TYPE) (a : CArray) : Prop :=
  ∃ range, storage m !! data a = Some range
           ∧ 0 <= size a <= Z.of_nat (length range) ∧ size a < 2 ^ 32.

End Array.

(** ** clutl::DataBuffer *)

Module clutl.

Inductive error : Type := OutOfBounds | Underrun | OutOfRange.

Inductive result (A : Type) : Type :=
  | Ok (a : A)
  | Err (e : error).
Arguments Ok {A} a.
Arguments Err {A} e.

(** The private members of the class. *)
Record DataBuffer : Type := mkDataBuffer {
  m_Data : list Byte.byte;
  m_Size : Z;
  m_Position : Z
}.

Definition GetPosition (this : DataBuffer) : Z := m_Position this.

(** Modelled from the spec: the body of [DataBuffer::Write] is not among the
    sources, only its declaration.  "write(data, length) (append at cursor,
    advance cursor, fails with OutOfBounds if it would exceed capacity)".
    The pair (data, length) of the declaration is the list of the [length]
    bytes found at [data]. *)
Definition Write (this : DataBuffer) (data : list Byte.byte) : result DataBuffer :=
  let length_ := Z.of_nat (length data) in
  if bool_decide (m_Position this + length_ > m_Size this) then
    Err OutOfBounds
  else
    Ok {| m_Data := take (Z.to_nat (m_Position this)) (m_Data this) ++ data
                    ++ drop (Z.to_nat (m_Position this + length_)) (m_Data this);
          m_Size := m_Size this;
          m_Position := m_Position this + length_ |}.

End clutl.

(** ** Vocabulary of the properties *)

(** The comparison is zero on the entry at index [i]. *)
Definition match_at {ARRAY_TYPE COMPARE_L_TYPE COMPARE_R_TYPE : Type}
    (convert : ARRAY_TYPE → COMPARE_L_TYPE)
    (COMPARE_FUNC : COMPARE_L_TYPE → COMPARE_R_TYPE → outcome Z)
    (entries : list ARRAY_TYPE) (compare_value : COMPARE_R_TYPE) (i : Z) : Prop :=
  ∃ e, entries !! Z.to_nat i = Some e
       ∧ COMPARE_FUNC (convert e) compare_value = Ret 0.

(** Invariant 1 of the data model: ascending by (unsigned) name hash. *)
Definition sorted_by_hash {ARRAY_TYPE : Type} (key : ARRAY_TYPE → Z)
    (entries : list ARRAY_TYPE) : Prop :=
  ∀ (i j : nat) e e', (i <= j)%nat →
    entries !! i = Some e → entries !! j = Some e' → key e <= key e'.

(** A cast to [target] is checked: applied to the node at [this], of kind
    [actual], it returns [this] exactly when the kinds agree and stops in the
    assertion exactly when they differ. *)
Definition checked_cast {K : Type} (actual target : K) (this : ptr)
    (cast : outcome ptr) : Prop :=
  (cast = Ret this ↔ actual = target)
  ∧ (cast = AssertFailure ↔ actual ≠ target).

(** An array of primitives a lookup can run on: every entry points to a
    primitive of the store, the hashes are 32-bit values, and the array has
    at most 2^30 entries. *)
Definition valid_primitives (σ : crcpp.store) (primitives : list ptr) : Prop :=
  Z.of_nat (length primitives) <= 2 ^ 30
  ∧ (∀ p, p ∈ primitives → is_Some (σ !! p))
  ∧ (∀ p prim, p ∈ primitives → σ !! p = Some prim →
               is_uint (hash (crcpp.name prim))).

(** The lookup result [r] for the hash [h]: null, or an entry of the array
    whose primitive carries the hash. *)
Definition null_or_match (σ : crcpp.store) (primitives : list ptr) (h : Z)
    (r : ptr) : Prop :=
  r = NULL
  ∨ r ∈ primitives
    ∧ ∃ prim, σ !! r = Some prim ∧ hash (crcpp.name prim) = h.

(** The lookup result [r] is an entry of the array that carries [h]. *)
Definition entry_with_hash (σ : crcpp.store) (primitives : list ptr) (h : Z)
    (r : ptr) : Prop :=
  r ∈ primitives ∧ ∃ prim, σ !! r = Some prim ∧ hash (crcpp.name prim) = h.

(** The searched hash is less than 2^31 away from every entry. *)
Definition near_every_entry (σ : crcpp.store) (primitives : list ptr) (h : Z)
    : Prop :=
  ∀ p prim, p ∈ primitives → σ !! p = Some prim →
            - 2 ^ 31 <= h - hash (crcpp.name prim) < 2 ^ 31.

(** ** Concrete inputs used below *)

(** Nodes of the extended profile: a class and an int attribute. *)
Definition clcpp_nodes : clcpp.store :=
  <[8 := clcpp.mkPrimitive clcpp.KIND_CLASS (mkName 77 None) NULL]>
  (<[24 := clcpp.mkPrimitive clcpp.KIND_INT_ATTRIBUTE (mkName 78 None) 8]> ∅).

(** A class of the minimal profile. *)
Definition crcpp_nodes : crcpp.store :=
  <[8 := crcpp.mkPrimitive crcpp.KIND_CLASS (mkName 77 None) NULL]> ∅.

Definition type_with_hash (h : Z) : crcpp.Primitive :=
  crcpp.mkPrimitive crcpp.KIND_TYPE (mkName h None) NULL.

(** The name hash read through an entry of a pointer array. *)
Definition hash_at (σ : crcpp.store) (p : ptr) : Z :=
  from_option (λ q, hash (crcpp.name q)) 0 (σ !! p).

(** Two types whose hashes, 1 and 0x80000002, are more than 2^31 apart. *)
Definition distant_store : crcpp.store :=
  <[100 := type_with_hash 1]> (<[200 := type_with_hash 2147483650]> ∅).

Definition distant_array : list ptr := [100; 200].

(** The same failure when "ascending" is read on the hashes as signed
    numbers: 0x80000000 is the least [int], 0x7FFFFFFF the greatest. *)
Definition extreme_store : crcpp.store :=
  <[100 := type_with_hash 2147483648]> (<[200 := type_with_hash 2147483647]> ∅).

(** The array of the scenario, as names and as pointers to primitives. *)
Definition four_names : list Name :=
  [mkName 10 None; mkName 20 None; mkName 30 None; mkName 40 None].

Definition four_store : crcpp.store :=
  <[16 := type_with_hash 10]> (<[32 := type_with_hash 20]>
  (<[48 := type_with_hash 30]> (<[64 := type_with_hash 40]> ∅))).

Definition four_array : list ptr := [16; 32; 48; 64].

(** A database block without any primitive, optionally with names. *)
Definition block_with_names (ns : list Name) : crcpp.DatabaseMem :=
  crcpp.mkDatabaseMem NULL ns [] [] [] [] [] [] [] [] NULL.

(** A stand-in for the name hash that maps the empty string to 0. *)
Definition length_hash (s : string) : Z := Z.of_nat (String.length s).

(** A loader over booleans: [true] stands for a well-formed stream and
    yields an empty block, [false] for a stream the loader rejects. *)
Definition bool_loader (file : bool) : option crcpp.DatabaseMem :=
  if file then Some (block_with_names []) else None.

(** The facade after a sequence of [Load] calls on a fresh [Database]. *)
Definition after_loads {IFile : Type}
    (LoadMemoryMappedDatabase : IFile → option crcpp.DatabaseMem)
    (files : list IFile) : crcpp.Database :=
  fold_left (λ this file, (crcpp.Load IFile LoadMemoryMappedDatabase this file).1)
            files crcpp.Database_new.

(** ** Blocks delivered and released

    [Load] assigns the block the loader delivers to [m_DatabaseMem] and
    releases nothing (Database.cpp:142); [~Database] deletes the block
    [m_DatabaseMem] points to, a null pointer deleting nothing.  The facade
    is followed together with the number of delivered blocks that no
    [delete] has released. *)

Record tracked : Type := mkTracked {
  facade : crcpp.Database;
  unreleased : nat
}.

Definition tracked_new : tracked :=
  {| facade := crcpp.Database_new; unreleased := 0 |}.

Definition tracked_Load {IFile : Type}
    (LoadMemoryMappedDatabase : IFile → option crcpp.DatabaseMem)
    (t : tracked) (file : IFile) : tracked :=
  {| facade := (crcpp.Load IFile LoadMemoryMappedDatabase (facade t) file).1;
     unreleased := match LoadMemoryMappedDatabase file with
                   | Some _ => S (unreleased t)
                   | None => unreleased t
                   end |}.

(** [~Database]: the blocks still unreleased once the facade is destroyed. *)
Definition tracked_delete (t : tracked) : nat :=
  match crcpp.m_DatabaseMem (facade t) with
  | Some _ => pred (unreleased t)
  | None => unreleased t
  end.

Definition tracked_loads {IFile : Type}
    (LoadMemoryMappedDatabase : IFile → option crcpp.DatabaseMem)
    (files : list IFile) : tracked :=
  fold_left (tracked_Load LoadMemoryMappedDatabase) files tracked_new.

(** The words of the specification: "a load has completed and not been
    released". *)
Definition completed_and_not_released (t : tracked) : Prop :=
  (0 < unreleased t)%nat.

(** An owning array of three elements at address 1000, its range at 5000,
    and an empty array at address 1016. *)
Definition sample_memory : Array.memory Z :=
  Array.mkMemory
    (<[1000 := Array.mkCArray 3 5000 7000]>
       (<[1016 := Array.mkCArray 0 NULL NULL]> ∅))
    (<[5000 := [11; 22; 33]]> ∅).

(** A buffer of four bytes with the cursor on the second. *)
Definition sample_buffer : clutl.DataBuffer :=
  clutl.mkDataBuffer [Byte.x00; Byte.x00; Byte.x00; Byte.x00] 4 1.

(** A block whose primitive arrays are the four entries of the scenario. *)
Definition four_block : crcpp.DatabaseMem :=
  crcpp.mkDatabaseMem NULL four_names [] [] [] [] four_array [] four_array
    four_array NULL.

(** An allocator for the examples: the least address that is neither null
    nor in use. *)
Definition fresh_block (st : gmap Z (list Z)) (allocator_ : ptr) (bytes : Z)
    : ptr :=
  fresh ({[NULL]} ∪ dom st).

(** * Properties *)

(** ** Machine arithmetic *)

Lemma wrap_uint_small (z : Z) : is_uint z → wrap_uint z = z.
Proof. unfold is_uint, wrap_uint. intros H. apply Z.mod_small. lia. Qed.

Lemma wrap_int_small (z : Z) : - 2 ^ 31 <= z < 2 ^ 31 → wrap_int z = z.
Proof. unfold wrap_int. intros H. rewrite Z.mod_small; lia. Qed.

Lemma wrap_uint_is_uint (z : Z) : is_uint (wrap_uint z).
Proof. unfold is_uint, wrap_uint. apply Z.mod_pos_bound. lia. Qed.

(** The comparison by subtraction is zero exactly on equal hashes. *)
Lemma compare_zero (h k : Z) :
  is_uint h → is_uint k → (wrap_int (wrap_uint (h - k)) = 0 ↔ h = k).
Proof.
  unfold is_uint, wrap_int, wrap_uint. intros Hh Hk. split.
  - intros H.
    destruct (decide (k <= h)) as [Hle|Hgt].
    + rewrite (Z.mod_small (h - k)) in H by lia.
      destruct (decide (h - k < 2 ^ 31)).
      * rewrite Z.mod_small in H; lia.
      * replace (h - k + 2 ^ 31) with ((h - k - 2 ^ 31) + 1 * 2 ^ 32) in H by lia.
        rewrite Z.mod_add, Z.mod_small in H; lia.
    + replace (h - k) with ((h - k + 2 ^ 32) + (-1) * 2 ^ 32) in H by lia.
      rewrite Z.mod_add, (Z.mod_small (h - k + 2 ^ 32)) in H by lia.
      destruct (decide (h - k + 2 ^ 32 < 2 ^ 31)).
      * rewrite Z.mod_small in H; lia.
      * replace (h - k + 2 ^ 32 + 2 ^ 31) with ((h - k + 2 ^ 31) + 1 * 2 ^ 32) in H by lia.
        rewrite Z.mod_add, Z.mod_small in H; lia.
  - intros ->. rewrite Z.sub_diag. reflexivity.
Qed.

(** While the two hashes are less than 2^31 apart, the sign of the
    comparison is the order of the hashes. *)
Lemma compare_sign (h k : Z) :
  is_uint h → is_uint k → - 2 ^ 31 <= h - k < 2 ^ 31 →
  wrap_int (wrap_uint (h - k)) = h - k.
Proof.
  unfold is_uint, wrap_int, wrap_uint. intros Hh Hk Hd.
  destruct (decide (k <= h)) as [Hle|Hgt].
  - rewrite (Z.mod_small (h - k)) by lia. rewrite Z.mod_small; lia.
  - replace (h - k) with ((h - k + 2 ^ 32) + (-1) * 2 ^ 32) at 1 by lia.
    rewrite Z.mod_add, (Z.mod_small (h - k + 2 ^ 32)) by lia.
    replace (h - k + 2 ^ 32 + 2 ^ 31) with ((h - k + 2 ^ 31) + 1 * 2 ^ 32) by lia.
    rewrite Z.mod_add, Z.mod_small; lia.
Qed.

(** ** The read-only array view *)

Lemma CArray_size_small {T : Type} (entries : list T) :
  Z.of_nat (length entries) <= 2 ^ 30 →
  CArray_size entries = Z.of_nat (length entries).
Proof. intros H. apply wrap_uint_small. unfold is_uint. lia. Qed.

Lemma CArray_at_lookup {T : Type} (entries : list T) (index : Z) :
  Z.of_nat (length entries) <= 2 ^ 30 →
  0 <= index < Z.of_nat (length entries) →
  ∃ e, entries !! Z.to_nat index = Some e ∧ CArray_at entries index = Ret e.
Proof.
  intros Hlen Hi.
  destruct (lookup_lt_is_Some_2 entries (Z.to_nat index)) as [e He]; [lia|].
  exists e. split; [exact He|].
  unfold CArray_at. rewrite CArray_size_small by exact Hlen.
  rewrite wrap_uint_small by (unfold is_uint; lia).
  rewrite bool_decide_eq_true_2 by lia. simpl. rewrite He. reflexivity.
Qed.

Lemma midpoint_bounds (first last : Z) :
  0 <= first → first <= last → last < 2 ^ 30 →
  let mid := Z.quot (wrap_int (first + last)) 2 in
  first <= mid <= last ∧ wrap_int (mid + 1) = mid + 1
  ∧ wrap_int (mid - 1) = mid - 1.
Proof.
  intros H0 Hle Hlt mid. subst mid.
  rewrite wrap_int_small by lia.
  rewrite Z.quot_div_nonneg by lia.
  assert (first <= (first + last) / 2 <= last) as Hm.
  { split; [apply Z.div_le_lower_bound | apply Z.div_le_upper_bound]; lia. }
  split; [exact Hm|]. split; apply wrap_int_small; lia.
Qed.

(** ** Binary search: what any result means

    For an array that fits the address space (at most 2^30 entries, so that
    [first + last] stays an [int]) and a comparison that returns on every
    entry, the search returns, and it returns either -1 or the index of an
    entry on which the comparison is zero.  Nothing is assumed about the
    order of the entries. *)

Section BinarySearch_sound.
Context {ARRAY_TYPE COMPARE_L_TYPE COMPARE_R_TYPE : Type}.
Variable convert : ARRAY_TYPE → COMPARE_L_TYPE.
Variable COMPARE_FUNC : COMPARE_L_TYPE → COMPARE_R_TYPE → outcome Z.
Variable entries : list ARRAY_TYPE.
Variable compare_value : COMPARE_R_TYPE.
Hypothesis entries_fit : Z.of_nat (length entries) <= 2 ^ 30.
Hypothesis compare_returns :
  ∀ e, e ∈ entries → ∃ c, COMPARE_FUNC (convert e) compare_value = Ret c.

Local Abbreviation match_at :=
  (match_at convert COMPARE_FUNC entries compare_value).

Lemma BinarySearch_loop_sound (fuel : nat) :
  ∀ first last,
    0 <= first → last < Z.of_nat (length entries) →
    last - first + 1 <= Z.of_nat fuel →
    ∃ i, BinarySearch_loop convert COMPARE_FUNC fuel entries compare_value
           first last = Ret i
         ∧ (i = -1 ∨ (first <= i <= last ∧ match_at i)).
Proof.
  induction fuel as [|fuel IH]; intros first last H0 Hlast Hfuel.
  - exists (-1). split; [|left; reflexivity].
    simpl. rewrite bool_decide_eq_false_2 by lia. reflexivity.
  - cbn [BinarySearch_loop].
    destruct (decide (first <= last)) as [Hle|Hgt].
    2:{ exists (-1). rewrite bool_decide_eq_false_2 by lia. auto. }
    rewrite bool_decide_eq_true_2 by exact Hle.
    destruct (midpoint_bounds first last) as (Hmid & Hup & Hdown); [lia..|].
    cbv zeta in Hmid, Hup, Hdown. cbv zeta.
    set (mid := Z.quot (wrap_int (first + last)) 2) in *.
    destruct (CArray_at_lookup entries mid) as (e & He & Hat); [lia..|].
    rewrite Hat. cbn [mbind outcome_bind].
    destruct (compare_returns e) as [c Hc].
    { eapply list_elem_of_lookup_2. exact He. }
    rewrite Hc. cbn [mbind outcome_bind].
    destruct (decide (c > 0)) as [Hpos|Hnpos].
    + rewrite bool_decide_eq_true_2 by exact Hpos. rewrite Hup.
      destruct (IH (mid + 1) last) as (i & Hi & Hres); [lia..|].
      exists i. split; [exact Hi|].
      destruct Hres as [->|[Hr Hm]]; [left; reflexivity|right].
      split; [lia|exact Hm].
    + rewrite bool_decide_eq_false_2 by exact Hnpos.
      destruct (decide (c < 0)) as [Hneg|Hnneg].
      * rewrite bool_decide_eq_true_2 by exact Hneg. rewrite Hdown.
        destruct (IH first (mid - 1)) as (i & Hi & Hres); [lia..|].
        exists i. split; [exact Hi|].
        destruct Hres as [->|[Hr Hm]]; [left; reflexivity|right].
        split; [lia|exact Hm].
      * rewrite bool_decide_eq_false_2 by exact Hnneg.
        exists mid. split; [reflexivity|right]. split; [exact Hmid|].
        exists e. split; [exact He|].
        replace c with 0 in Hc by lia. exact Hc.
Qed.

Lemma BinarySearch_sound :
  ∃ i, BinarySearch convert COMPARE_FUNC entries compare_value = Ret i
       ∧ (i = -1 ∨ (0 <= i < Z.of_nat (length entries) ∧ match_at i)).
Proof.
  unfold BinarySearch. cbv zeta.
  rewrite CArray_size_small by exact entries_fit.
  rewrite wrap_int_small by lia.
  destruct (BinarySearch_loop_sound (S (length entries)) 0
              (Z.of_nat (length entries) - 1)) as (i & Hi & Hres); [lia..|].
  exists i. split; [exact Hi|].
  destruct Hres as [->|[Hr Hm]]; [left; reflexivity|right].
  split; [lia|exact Hm].
Qed.
End BinarySearch_sound.

(** ** Binary search: when a present hash is found

    The comparison is [hash - entry.hash] read as an [int].  On an array
    sorted ascending by hash the search finds a present hash as long as the
    searched hash is less than 2^31 away from every entry. *)

Section BinarySearch_finds.
Context {ARRAY_TYPE COMPARE_L_TYPE : Type}.
Variable convert : ARRAY_TYPE → COMPARE_L_TYPE.
Variable COMPARE_FUNC : COMPARE_L_TYPE → Z → outcome Z.
Variable key : ARRAY_TYPE → Z.
Variable entries : list ARRAY_TYPE.
Variable h : Z.

Hypothesis entries_fit : Z.of_nat (length entries) <= 2 ^ 30.
Hypothesis compare_is_difference :
  ∀ e, e ∈ entries →
       COMPARE_FUNC (convert e) h = Ret (wrap_int (wrap_uint (h - key e))).
Hypothesis keys_uint : ∀ e, e ∈ entries → is_uint (key e).
Hypothesis h_uint : is_uint h.
Hypothesis sorted : sorted_by_hash key entries.
Hypothesis near : ∀ e, e ∈ entries → - 2 ^ 31 <= h - key e < 2 ^ 31.

Lemma BinarySearch_loop_finds (fuel : nat) :
  ∀ first last (j : nat) e,
    0 <= first → last < Z.of_nat (length entries) →
    last - first + 1 <= Z.of_nat fuel →
    first <= Z.of_nat j <= last → entries !! j = Some e → key e = h →
    ∃ i e', BinarySearch_loop convert COMPARE_FUNC fuel entries h first last
              = Ret i
            ∧ first <= i <= last
            ∧ entries !! Z.to_nat i = Some e' ∧ key e' = h.
Proof.
  induction fuel as [|fuel IH]; intros first last j e H0 Hlast Hfuel Hj He Hk.
  - lia.
  - cbn [BinarySearch_loop].
    rewrite bool_decide_eq_true_2 by lia.
    destruct (midpoint_bounds first last) as (Hmid & Hup & Hdown); [lia..|].
    cbv zeta in Hmid, Hup, Hdown. cbv zeta.
    set (mid := Z.quot (wrap_int (first + last)) 2) in *.
    destruct (CArray_at_lookup entries mid) as (em & Hem & Hat); [lia..|].
    rewrite Hat. cbn [mbind outcome_bind].
    assert (em ∈ entries) as Hin by (eapply list_elem_of_lookup_2; exact Hem).
    rewrite (compare_is_difference em Hin). cbn [mbind outcome_bind].
    rewrite (compare_sign h (key em)) by auto.
    destruct (decide (h - key em > 0)) as [Hpos|Hnpos].
    + rewrite bool_decide_eq_true_2 by exact Hpos. rewrite Hup.
      assert (mid < Z.of_nat j) as Hlt.
      { destruct (decide (mid < Z.of_nat j)) as [|Hge]; [assumption|].
        assert (key e <= key em); [|lia].
        apply (sorted j (Z.to_nat mid)); [lia|assumption..]. }
      destruct (IH (mid + 1) last j e) as (i & e' & Hi & Hr & Hl & Hke);
        [lia..|assumption|assumption|].
      exists i, e'. repeat split; [exact Hi|lia|lia|exact Hl|exact Hke].
    + rewrite bool_decide_eq_false_2 by exact Hnpos.
      destruct (decide (h - key em < 0)) as [Hneg|Hnneg].
      * rewrite bool_decide_eq_true_2 by exact Hneg. rewrite Hdown.
        assert (Z.of_nat j < mid) as Hlt.
        { destruct (decide (Z.of_nat j < mid)) as [|Hge]; [assumption|].
          assert (key em <= key e); [|lia].
          apply (sorted (Z.to_nat mid) j); [lia|assumption..]. }
        destruct (IH first (mid - 1) j e) as (i & e' & Hi & Hr & Hl & Hke);
          [lia..|assumption|assumption|].
        exists i, e'. repeat split; [exact Hi|lia|lia|exact Hl|exact Hke].
      * rewrite bool_decide_eq_false_2 by exact Hnneg.
        exists mid, em. repeat split; [lia|lia|exact Hem|lia].
Qed.

Lemma BinarySearch_finds (e : ARRAY_TYPE) :
  e ∈ entries → key e = h →
  ∃ i e', BinarySearch convert COMPARE_FUNC entries h = Ret i
          ∧ 0 <= i < Z.of_nat (length entries)
          ∧ entries !! Z.to_nat i = Some e' ∧ key e' = h.
Proof.
  intros Hin Hk. apply list_elem_of_lookup_1 in Hin as [j Hj].
  pose proof (lookup_lt_Some _ _ _ Hj) as Hlt.
  unfold BinarySearch. cbv zeta.
  rewrite CArray_size_small by exact entries_fit.
  rewrite wrap_int_small by lia.
  destruct (BinarySearch_loop_finds (S (length entries)) 0
              (Z.of_nat (length entries) - 1) j e)
    as (i & e' & Hi & Hr & Hl & Hke); [lia..|assumption|assumption|].
  exists i, e'. repeat split; [exact Hi|lia|lia|exact Hl|exact Hke].
Qed.
End BinarySearch_finds.

(** ** FindPrimitive and the name lookup *)

Section FindPrimitive_facts.
Import crcpp.
Variable σ : store.
Variable primitives : list ptr.
Variable h : Z.

(** Every entry of the array points to a primitive. *)
Hypothesis entries_valid : ∀ p, p ∈ primitives → is_Some (σ !! p).
Hypothesis entries_fit : Z.of_nat (length primitives) <= 2 ^ 30.

Lemma ComparePrimitives_returns (p : ptr) :
  p ∈ primitives → ∃ c, ComparePrimitives σ (id p) h = Ret c.
Proof.
  intros Hin. destruct (entries_valid p Hin) as [prim Hp].
  unfold ComparePrimitives, id. rewrite Hp. cbn. eauto.
Qed.

(** Whatever the order of the array, a non-null result is an entry of the
    array on which the comparison is zero. *)
Lemma FindPrimitive_sound :
  ∃ r, FindPrimitive σ primitives h = Ret r
       ∧ (r = NULL
          ∨ r ∈ primitives
            ∧ ∃ prim, σ !! r = Some prim
                      ∧ wrap_int (wrap_uint (h - hash (name prim))) = 0).
Proof.
  destruct (BinarySearch_sound id (ComparePrimitives σ) primitives h
              entries_fit ComparePrimitives_returns) as (i & Hi & Hres).
  unfold FindPrimitive. rewrite Hi. cbn [mbind outcome_bind].
  destruct Hres as [->|[Hr (e & He & Hc)]].
  - exists NULL. rewrite bool_decide_eq_true_2 by reflexivity. auto.
  - rewrite bool_decide_eq_false_2 by lia.
    destruct (CArray_at_lookup primitives i) as (e' & He' & Hat); [lia..|].
    rewrite He in He'. injection He' as <-. rewrite Hat.
    exists e. split; [reflexivity|right].
    assert (e ∈ primitives) as Hin by (eapply list_elem_of_lookup_2; exact He).
    split; [exact Hin|].
    destruct (entries_valid e Hin) as [prim Hp]. exists prim.
    split; [exact Hp|].
    unfold ComparePrimitives, id in Hc. rewrite Hp in Hc. cbn in Hc.
    injection Hc as Hc. exact Hc.
Qed.

Hypothesis hashes_uint :
  ∀ p prim, p ∈ primitives → σ !! p = Some prim → is_uint (hash (name prim)).
Hypothesis h_uint : is_uint h.

(** A hash that no entry carries is reported as not found. *)
Lemma FindPrimitive_absent :
  (∀ p prim, p ∈ primitives → σ !! p = Some prim → hash (name prim) ≠ h) →
  FindPrimitive σ primitives h = Ret NULL.
Proof.
  intros Habs.
  destruct FindPrimitive_sound as (r & Hr & [->|(Hin & prim & Hp & Hc)]);
    [exact Hr|].
  apply (compare_zero h (hash (name prim)) h_uint) in Hc;
    [|eapply hashes_uint; eassumption].
  exfalso. eapply Habs; [exact Hin|exact Hp|]. symmetry. exact Hc.
Qed.

(** On a sorted array, a present hash is found when it is less than 2^31
    away from the hash of every entry. *)
Lemma FindPrimitive_finds_near (e : ptr) (prim_e : Primitive) :
  sorted_by_hash (hash_at σ) primitives →
  (∀ p prim, p ∈ primitives → σ !! p = Some prim →
             - 2 ^ 31 <= h - hash (name prim) < 2 ^ 31) →
  e ∈ primitives → σ !! e = Some prim_e → hash (name prim_e) = h →
  ∃ r prim, FindPrimitive σ primitives h = Ret r ∧ r ∈ primitives
            ∧ σ !! r = Some prim ∧ hash (name prim) = h.
Proof.
  intros Hsorted Hnear Hin He Hh.
  set (key := hash_at σ). unfold hash_at in key.
  destruct (BinarySearch_finds id (ComparePrimitives σ) key primitives h)
    with (e := e) as (i & r & Hi & Hr & Hl & Hk).
  - exact entries_fit.
  - intros p Hp. destruct (entries_valid p Hp) as [prim Hprim].
    unfold ComparePrimitives, id, key. rewrite Hprim. reflexivity.
  - intros p Hp. destruct (entries_valid p Hp) as [prim Hprim].
    unfold key. rewrite Hprim. cbn. eapply hashes_uint; eassumption.
  - exact h_uint.
  - exact Hsorted.
  - intros p Hp. destruct (entries_valid p Hp) as [prim Hprim].
    unfold key. rewrite Hprim. cbn. eapply Hnear; eassumption.
  - exact Hin.
  - unfold key. rewrite He. exact Hh.
  - assert (r ∈ primitives) as Hrin by (eapply list_elem_of_lookup_2; exact Hl).
    destruct (entries_valid r Hrin) as [prim Hprim].
    exists r, prim. unfold FindPrimitive. rewrite Hi. cbn [mbind outcome_bind].
    rewrite bool_decide_eq_false_2 by lia.
    destruct (CArray_at_lookup primitives i) as (r' & Hr' & Hat); [lia..|].
    rewrite Hl in Hr'. injection Hr' as <-. rewrite Hat.
    repeat split; [exact Hrin|exact Hprim|].
    unfold key in Hk. rewrite Hprim in Hk. exact Hk.
Qed.
End FindPrimitive_facts.

(** ** The claims about lookup *)

(** C1 (the code departs from the claim).  The array [distant_array] is
    sorted ascending by 32-bit name hash (hashes 1 and 0x80000002) and its
    second entry carries the hash 0x80000002; searched for that hash,
    [FindPrimitive] returns the null pointer, because
    [int(0x80000002 - 1)] is negative and the search descends to the left. *)
Theorem FindPrimitive_misses_distant_hash :
  sorted_by_hash (hash_at distant_store) distant_array
  ∧ 200 ∈ distant_array
  ∧ hash_at distant_store 200 = 2147483650
  ∧ crcpp.FindPrimitive distant_store distant_array 2147483650 = Ret NULL.
Proof.
  split; [|split; [|split]].
  - intros i j e e' Hij Hi Hj.
    destruct i as [|[|i]]; destruct j as [|[|j]]; simplify_eq/=;
      try lia; vm_compute; discriminate.
  - unfold distant_array. set_solver.
  - reflexivity.
  - vm_compute. reflexivity.
Qed.

(** Read as signed numbers the hashes of [extreme_store] ascend along
    [distant_array], and the search for the second one, 0x7FFFFFFF, misses
    it as well: no reading of "sorted" makes the subtraction a comparison. *)
Lemma FindPrimitive_misses_extreme_hash :
  wrap_int (hash_at extreme_store 100) < wrap_int (hash_at extreme_store 200)
  ∧ hash_at extreme_store 200 = 2147483647
  ∧ crcpp.FindPrimitive extreme_store distant_array 2147483647 = Ret NULL.
Proof. repeat split. Qed.

(** C6.  On the sorted array with hashes 10, 20, 30, 40 the search returns
    not-found (-1) for 25, index 2 for 30, index 0 for 10 and index 3 for
    40; [FindPrimitive] returns the matching entries of the pointer array. *)
Theorem BinarySearch_four_entries :
  BinarySearch id crcpp.CompareNames four_names 25 = Ret (-1)
  ∧ BinarySearch id crcpp.CompareNames four_names 30 = Ret 2
  ∧ BinarySearch id crcpp.CompareNames four_names 10 = Ret 0
  ∧ BinarySearch id crcpp.CompareNames four_names 40 = Ret 3
  ∧ BinarySearch id (crcpp.ComparePrimitives four_store) four_array 25 = Ret (-1)
  ∧ BinarySearch id (crcpp.ComparePrimitives four_store) four_array 30 = Ret 2
  ∧ BinarySearch id (crcpp.ComparePrimitives four_store) four_array 10 = Ret 0
  ∧ BinarySearch id (crcpp.ComparePrimitives four_store) four_array 40 = Ret 3
  ∧ crcpp.FindPrimitive four_store four_array 25 = Ret NULL
  ∧ crcpp.FindPrimitive four_store four_array 30 = Ret 48.
Proof. repeat split; vm_compute; reflexivity. Qed.

(** C7.  On a loaded database whose [type_primitives] array is empty,
    [GetType] returns the null pointer for every hash. *)
Theorem GetType_empty_database (σ : crcpp.store) (mem : crcpp.DatabaseMem)
    (h : Z) :
  crcpp.type_primitives mem = [] →
  crcpp.GetType σ (crcpp.mkDatabase (Some mem)) h = Ret NULL.
Proof.
  intros Hempty. unfold crcpp.GetType. cbn [crcpp.m_DatabaseMem deref mbind outcome_bind].
  rewrite Hempty. reflexivity.
Qed.

Lemma GetType_empty_database_witness :
  crcpp.GetType four_store (crcpp.mkDatabase (Some (block_with_names four_names))) 30
  = Ret NULL.
Proof. apply GetType_empty_database. reflexivity. Defined.

(** ** The claims about the facade *)

(** C2 (counterexample).  On a facade that was never loaded, [GetName] with a
    null text returns the empty [Name]: no assertion stops the call. *)
Lemma GetName_before_load_returns :
  crcpp.IsLoaded crcpp.Database_new = false
  ∧ crcpp.GetName length_hash crcpp.Database_new None = Ret Name_default
  ∧ crcpp.GetName length_hash crcpp.Database_new None ≠ AssertFailure.
Proof. repeat split. discriminate. Qed.

(** C2 (amended).  No query checks that the database is loaded.  While it is
    not loaded, [GetType], [GetNamespace], [GetFunction] and [GetName] on a
    text with a non-zero hash read through the null [m_DatabaseMem], which
    is undefined behaviour and not a failed assertion; [GetName] on a null
    text or on a text that hashes to 0 returns the empty [Name]. *)
Theorem queries_before_load (HashNameString : string → Z) (σ : crcpp.store)
    (this : crcpp.Database) (h : Z) :
  crcpp.IsLoaded this = false →
  crcpp.GetType σ this h = Undefined
  ∧ crcpp.GetNamespace σ this h = Undefined
  ∧ crcpp.GetFunction σ this h = Undefined
  ∧ crcpp.GetName HashNameString this None = Ret Name_default
  ∧ (∀ s, wrap_uint (HashNameString s) = 0 →
          crcpp.GetName HashNameString this (Some s) = Ret Name_default)
  ∧ (∀ s, wrap_uint (HashNameString s) ≠ 0 →
          crcpp.GetName HashNameString this (Some s) = Undefined).
Proof.
  destruct this as [[mem|]]; intros Hnot.
  - vm_compute in Hnot. discriminate.
  - repeat split.
    + intros s Hs. unfold crcpp.GetName. cbv zeta.
      rewrite bool_decide_eq_true_2 by exact Hs. reflexivity.
    + intros s Hs. unfold crcpp.GetName. cbv zeta.
      rewrite bool_decide_eq_false_2 by exact Hs. reflexivity.
Qed.

Lemma queries_before_load_witness :
  crcpp.GetType four_store crcpp.Database_new 30 = Undefined
  ∧ crcpp.GetName length_hash crcpp.Database_new (Some EmptyString) = Ret Name_default
  ∧ crcpp.GetName length_hash crcpp.Database_new (Some "abc") = Undefined.
Proof.
  destruct (queries_before_load length_hash four_store crcpp.Database_new 30
              eq_refl) as (Ht & _ & _ & _ & Hzero & Hnonzero).
  split; [exact Ht|]. split.
  - apply Hzero. reflexivity.
  - apply Hnonzero. vm_compute. discriminate.
Defined.

(** C4.  [GetName] returns the empty [Name] (hash 0, null text) for a null
    text, for the empty string (which hashes to 0), and for a text whose
    hash no entry of the name table carries.  For the null and the empty
    text this holds for every facade, loaded or not and whatever its name
    table holds: the table is not read. *)
Theorem GetName_sentinel (HashNameString : string → Z) :
  HashNameString EmptyString = 0 →
  hash Name_default = 0 ∧ text Name_default = None
  ∧ (∀ this, crcpp.GetName HashNameString this None = Ret Name_default)
  ∧ (∀ this, crcpp.GetName HashNameString this (Some EmptyString) = Ret Name_default)
  ∧ (∀ mem s,
       Z.of_nat (length (crcpp.names mem)) <= 2 ^ 30 →
       (∀ n, n ∈ crcpp.names mem → is_uint (hash n)) →
       (∀ n, n ∈ crcpp.names mem → hash n ≠ wrap_uint (HashNameString s)) →
       crcpp.GetName HashNameString (crcpp.mkDatabase (Some mem)) (Some s)
       = Ret Name_default).
Proof.
  intros Hempty. repeat split.
  - intros this. unfold crcpp.GetName. cbv zeta. rewrite Hempty. reflexivity.
  - intros mem s Hfit Huint Habsent. unfold crcpp.GetName. cbv zeta.
    destruct (bool_decide (wrap_uint (HashNameString s) = 0)); [reflexivity|].
    cbn [crcpp.m_DatabaseMem deref mbind outcome_bind].
    destruct (BinarySearch_sound id crcpp.CompareNames (crcpp.names mem)
                (wrap_uint (HashNameString s)) Hfit) as (i & Hi & Hres).
    { intros e _. unfold crcpp.CompareNames. eauto. }
    rewrite Hi. cbn [mbind outcome_bind].
    destruct Hres as [->|[_ (n & Hn & Hc)]]; [reflexivity|].
    exfalso. apply list_elem_of_lookup_2 in Hn.
    unfold crcpp.CompareNames, id in Hc. injection Hc as Hc.
    apply (compare_zero _ _ (wrap_uint_is_uint _) (Huint n Hn)) in Hc.
    eapply Habsent; [exact Hn|]. symmetry. exact Hc.
Qed.

Lemma GetName_sentinel_witness :
  crcpp.GetName length_hash crcpp.Database_new (Some EmptyString) = Ret Name_default
  ∧ crcpp.GetName length_hash
      (crcpp.mkDatabase (Some (block_with_names four_names))) (Some "abc")
    = Ret Name_default.
Proof.
  destruct (GetName_sentinel length_hash eq_refl) as (_ & _ & _ & Hemp & Habs).
  split; [apply Hemp|]. apply Habs.
  - vm_compute. discriminate.
  - intros n Hn. unfold block_with_names, four_names in Hn. cbn in Hn.
    rewrite !elem_of_cons in Hn. rewrite elem_of_nil in Hn.
    destruct Hn as [->|[->|[->|[->|[]]]]]; vm_compute; split; discriminate || reflexivity.
  - intros n Hn. unfold block_with_names, four_names in Hn. cbn in Hn.
    rewrite !elem_of_cons in Hn. rewrite elem_of_nil in Hn.
    destruct Hn as [->|[->|[->|[->|[]]]]]; vm_compute; discriminate.
Defined.

(** C5 (counterexample).  After a [Load] the loader accepts and a [Load] it
    rejects, a load has completed and its block has not been released: the
    second [Load] overwrote [m_DatabaseMem] with null and deleted nothing,
    and not even the destructor will release the block.  Yet [IsLoaded] is
    false. *)
Lemma IsLoaded_false_with_unreleased_block :
  facade (tracked_loads bool_loader [true; false])
  = after_loads bool_loader [true; false]
  ∧ completed_and_not_released (tracked_loads bool_loader [true; false])
  ∧ tracked_delete (tracked_loads bool_loader [true; false]) = 1%nat
  ∧ crcpp.IsLoaded (facade (tracked_loads bool_loader [true; false])) = false
  ∧ ¬ (crcpp.IsLoaded (facade (tracked_loads bool_loader [true; false])) = true
       ↔ completed_and_not_released (tracked_loads bool_loader [true; false])).
Proof.
  assert (completed_and_not_released (tracked_loads bool_loader [true; false]))
    as Hheld by (vm_compute; lia).
  split; [reflexivity|]. split; [exact Hheld|]. split; [reflexivity|].
  split; [reflexivity|].
  intros [_ Hback]. specialize (Hback Hheld). vm_compute in Hback.
  discriminate.
Qed.

(** C5 (amended).  The boolean [Load] returns is the value [IsLoaded]
    reports afterwards; a failed [Load] leaves the facade not loaded, its
    [m_DatabaseMem] null; [Load] succeeds exactly when the loader delivers a
    block.  On a facade reached by a sequence of [Load] calls, [IsLoaded] is
    true exactly when a load has been made and the latest one completed. *)
Theorem Load_agrees_with_IsLoaded {IFile : Type}
    (LoadMemoryMappedDatabase : IFile → option crcpp.DatabaseMem) :
  (∀ this file,
     (crcpp.Load IFile LoadMemoryMappedDatabase this file).2
     = crcpp.IsLoaded (crcpp.Load IFile LoadMemoryMappedDatabase this file).1)
  ∧ (∀ this file,
       (crcpp.Load IFile LoadMemoryMappedDatabase this file).2 = false →
       crcpp.IsLoaded (crcpp.Load IFile LoadMemoryMappedDatabase this file).1
       = false
       ∧ crcpp.m_DatabaseMem
           (crcpp.Load IFile LoadMemoryMappedDatabase this file).1 = None)
  ∧ (∀ this file,
       (crcpp.Load IFile LoadMemoryMappedDatabase this file).2 = true
       ↔ is_Some (LoadMemoryMappedDatabase file))
  ∧ crcpp.IsLoaded crcpp.Database_new = false
  ∧ (∀ files,
       crcpp.IsLoaded (after_loads LoadMemoryMappedDatabase files) = true
       ↔ ∃ files' file, files = files' ++ [file]
                        ∧ is_Some (LoadMemoryMappedDatabase file)).
Proof.
  split; [reflexivity|]. split; [|split; [|split; [reflexivity|]]].
  - intros this file. unfold crcpp.Load, crcpp.IsLoaded. cbn.
    destruct (LoadMemoryMappedDatabase file) as [mem|]; [|done].
    rewrite bool_decide_eq_true_2 by eauto. discriminate.
  - intros this file. unfold crcpp.Load. cbn. apply bool_decide_eq_true.
  - intros files. unfold after_loads.
    destruct (decide (files = [])) as [->|Hne].
    + cbn. split; [discriminate|]. intros (files' & file & Heq & _).
      destruct files'; discriminate.
    + destruct (exists_last Hne) as (files' & file & ->).
      rewrite fold_left_app. cbn. unfold crcpp.IsLoaded. cbn.
      rewrite bool_decide_eq_true. split.
      * intros Hsome. exists files', file. auto.
      * intros (files'' & file' & Heq & Hsome).
        apply app_inj_tail in Heq as [_ ->]. exact Hsome.
Qed.

Lemma Load_agrees_with_IsLoaded_witness :
  crcpp.IsLoaded (crcpp.Load bool bool_loader crcpp.Database_new false).1 = false
  ∧ crcpp.m_DatabaseMem (crcpp.Load bool bool_loader crcpp.Database_new false).1
    = None
  ∧ (crcpp.Load bool bool_loader crcpp.Database_new true).2 = true
  ∧ crcpp.IsLoaded (after_loads bool_loader [false; true]) = true.
Proof.
  destruct (Load_agrees_with_IsLoaded bool_loader)
    as (_ & Hfail & Hok & _ & Hrun).
  destruct (Hfail crcpp.Database_new false eq_refl) as [H1 H2].
  split; [exact H1|]. split; [exact H2|]. split.
  - apply Hok. cbn. eauto.
  - apply Hrun. exists [false], true. split; [reflexivity|]. cbn. eauto.
Defined.

(** ** The claims about casts *)

Lemma checked_cast_intro {K : Type} `{EqDecision K} (actual target : K)
    (this : ptr) :
  checked_cast actual target this
    (Assert (bool_decide (actual = target));; Ret this).
Proof.
  unfold checked_cast. destruct (decide (actual = target)) as [Heq|Hne].
  - rewrite bool_decide_eq_true_2 by exact Heq. cbn.
    split; split; intros; done.
  - rewrite bool_decide_eq_false_2 by exact Hne. cbn.
    split; split; intros; done.
Qed.

(** C3.  Each cast of a [Type] node ([AsEnum], [AsTemplateType], [AsClass])
    and of an [Attribute] node ([AsIntAttribute], [AsFloatAttribute],
    [AsNameAttribute], [AsTextAttribute]) returns the node it is applied to
    exactly when the kind tag of the node is the target kind, and fails the
    assertion exactly when it is not; the same holds for the two casts of the
    minimal profile.  On a node of kind [KIND_CLASS], [AsClass] returns the
    node and [AsEnum] fails the assertion. *)
Theorem casts_are_checked :
  (∀ (σ : clcpp.store) (this : ptr) (p : clcpp.Primitive),
     σ !! this = Some p →
     checked_cast (clcpp.kind p) clcpp.KIND_ENUM this (clcpp.AsEnum σ this)
     ∧ checked_cast (clcpp.kind p) clcpp.KIND_TEMPLATE_TYPE this
         (clcpp.AsTemplateType σ this)
     ∧ checked_cast (clcpp.kind p) clcpp.KIND_CLASS this (clcpp.AsClass σ this)
     ∧ checked_cast (clcpp.kind p) clcpp.KIND_INT_ATTRIBUTE this
         (clcpp.AsIntAttribute σ this)
     ∧ checked_cast (clcpp.kind p) clcpp.KIND_FLOAT_ATTRIBUTE this
         (clcpp.AsFloatAttribute σ this)
     ∧ checked_cast (clcpp.kind p) clcpp.KIND_NAME_ATTRIBUTE this
         (clcpp.AsNameAttribute σ this)
     ∧ checked_cast (clcpp.kind p) clcpp.KIND_TEXT_ATTRIBUTE this
         (clcpp.AsTextAttribute σ this)
     ∧ (clcpp.kind p = clcpp.KIND_CLASS →
        clcpp.AsClass σ this = Ret this
        ∧ clcpp.AsEnum σ this = AssertFailure))
  ∧ (∀ (σ : crcpp.store) (this : ptr) (p : crcpp.Primitive),
       σ !! this = Some p →
       checked_cast (crcpp.kind p) crcpp.KIND_ENUM this (crcpp.AsEnum σ this)
       ∧ checked_cast (crcpp.kind p) crcpp.KIND_CLASS this
           (crcpp.AsClass σ this)
       ∧ (crcpp.kind p = crcpp.KIND_CLASS →
          crcpp.AsClass σ this = Ret this
          ∧ crcpp.AsEnum σ this = AssertFailure)).
Proof.
  split.
  - intros σ this p Hp.
    unfold clcpp.AsEnum, clcpp.AsTemplateType, clcpp.AsClass,
      clcpp.AsIntAttribute, clcpp.AsFloatAttribute, clcpp.AsNameAttribute,
      clcpp.AsTextAttribute.
    rewrite Hp. cbn [deref mbind outcome_bind].
    do 7 (split; [apply checked_cast_intro|]).
    intros Hk. rewrite Hk. split; reflexivity.
  - intros σ this p Hp. unfold crcpp.AsEnum, crcpp.AsClass.
    rewrite Hp. cbn [deref mbind outcome_bind].
    do 2 (split; [apply checked_cast_intro|]).
    intros Hk. rewrite Hk. split; reflexivity.
Qed.

Lemma casts_are_checked_witness :
  clcpp.AsClass clcpp_nodes 8 = Ret 8
  ∧ clcpp.AsEnum clcpp_nodes 8 = AssertFailure
  ∧ clcpp.AsIntAttribute clcpp_nodes 24 = Ret 24
  ∧ clcpp.AsTextAttribute clcpp_nodes 24 = AssertFailure
  ∧ crcpp.AsClass crcpp_nodes 8 = Ret 8
  ∧ crcpp.AsEnum crcpp_nodes 8 = AssertFailure.
Proof.
  destruct casts_are_checked as [Hcl Hcr].
  destruct (Hcl clcpp_nodes 8 _ eq_refl) as (_ & _ & _ & _ & _ & _ & _ & Hclass).
  destruct (Hcl clcpp_nodes 24 _ eq_refl) as (_ & _ & _ & Hint & _ & _ & Htext & _).
  destruct (Hcr crcpp_nodes 8 _ eq_refl) as (_ & _ & Hclass').
  destruct (Hclass eq_refl) as [H1 H2]. destruct (Hclass' eq_refl) as [H3 H4].
  split; [exact H1|]. split; [exact H2|].
  split; [apply Hint; reflexivity|].
  split; [apply Htext; discriminate|].
  split; [exact H3|exact H4].
Defined.

(** ** The claims about the array helpers *)

(** C10.  [shallow_copy(dest, src)] returns, leaves [dest] with the size,
    the data pointer and the allocator of [src], leaves [src], every other
    array and every element range as they were; when [src] has an allocator
    (it owns its range) both arrays carry that same non-null allocator
    afterwards. *)
Theorem shallow_copy_duplicates {TYPE : Type} (m : Array.memory TYPE)
    (dest src : ptr) (d s : Array.CArray) :
  Array.arrays m !! dest = Some d →
  Array.arrays m !! src = Some s →
  ∃ m' d',
    Array.shallow_copy m dest src = Ret m'
    ∧ Array.arrays m' !! dest = Some d'
    ∧ Array.size d' = Array.size s
    ∧ Array.data d' = Array.data s
    ∧ Array.allocator d' = Array.allocator s
    ∧ Array.arrays m' !! src = Some s
    ∧ (∀ a, a ≠ dest → Array.arrays m' !! a = Array.arrays m !! a)
    ∧ Array.storage m' = Array.storage m
    ∧ (Array.allocator s ≠ NULL →
       Array.allocator d' ≠ NULL
       ∧ ∃ s', Array.arrays m' !! src = Some s'
               ∧ Array.allocator s' = Array.allocator d').
Proof.
  intros Hd Hs. destruct s as [n p al].
  exists (Array.store_array m dest (Array.mkCArray n p al)), (Array.mkCArray n p al).
  assert (Array.shallow_copy m dest src
          = Ret (Array.store_array m dest (Array.mkCArray n p al))) as Hrun.
  { unfold Array.shallow_copy, Array.load_array, Array.store_array.
    destruct (decide (src = dest)) as [->|Hne].
    - rewrite Hd in Hs. injection Hs as ->. rewrite Hd.
      cbn [deref mbind outcome_bind Array.arrays Array.storage
           Array.size Array.data Array.allocator].
      rewrite !lookup_insert_eq. cbn. rewrite !lookup_insert_eq. cbn.
      rewrite !insert_insert_eq. reflexivity.
    - rewrite Hs, Hd.
      cbn [deref mbind outcome_bind Array.arrays Array.storage].
      rewrite !lookup_insert_eq.
      rewrite (lookup_insert_ne _ dest src) by done. rewrite Hs. cbn.
      rewrite !lookup_insert_eq.
      rewrite (lookup_insert_ne _ dest src) by done.
      rewrite (lookup_insert_ne _ dest src) by done. rewrite Hs. cbn.
      rewrite !insert_insert_eq. reflexivity. }
  assert (Array.arrays (Array.store_array m dest (Array.mkCArray n p al)) !! src
          = Some (Array.mkCArray n p al)) as Hsrc.
  { cbn. destruct (decide (src = dest)) as [->|Hne].
    - apply lookup_insert_eq.
    - rewrite lookup_insert_ne by done. exact Hs. }
  split; [exact Hrun|]. split; [cbn; apply lookup_insert_eq|].
  do 3 (split; [reflexivity|]). split; [exact Hsrc|].
  split; [intros a Ha; cbn; apply lookup_insert_ne; done|].
  split; [reflexivity|].
  intros Hown. split; [exact Hown|]. eauto.
Qed.

Lemma shallow_copy_duplicates_witness :
  ∃ m' d',
    Array.shallow_copy sample_memory 1016 1000 = Ret m'
    ∧ Array.arrays m' !! 1016 = Some d'
    ∧ Array.size d' = 3 ∧ Array.data d' = 5000 ∧ Array.allocator d' = 7000
    ∧ Array.arrays m' !! 1000 = Some (Array.mkCArray 3 5000 7000)
    ∧ Array.allocator d' ≠ NULL.
Proof.
  destruct (shallow_copy_duplicates sample_memory 1016 1000
              (Array.mkCArray 0 NULL NULL) (Array.mkCArray 3 5000 7000)
              eq_refl eq_refl)
    as (m' & d' & Hrun & Hd & Hsize & Hdata & Halloc & Hsrc & _ & _ & Hown).
  exists m', d'. repeat split; try assumption.
  apply Hown. cbn. discriminate.
Defined.

(** Overwriting slot [i] of the first [S n] elements with the last of them
    and dropping the last slot removes exactly the element of slot [i]. *)
Lemma remove_by_last {T : Type} (range : list T) (n i : nat) (last_ removed : T) :
  range !! n = Some last_ → range !! i = Some removed → (i <= n)%nat →
  take (S n) range ≡ₚ removed :: <[i := last_]> (take n range).
Proof.
  intros Hlast Hrem Hi.
  rewrite (take_S_r _ _ _ Hlast).
  destruct (decide (i = n)) as [->|Hne].
  - rewrite list_insert_ge by (rewrite length_take; lia).
    rewrite Hlast in Hrem. injection Hrem as ->.
    symmetry. apply Permutation_cons_append.
  - assert (take n range !! i = Some removed) as Hpre.
    { rewrite lookup_take_lt by lia. exact Hrem. }
    rewrite insert_take_drop by (apply lookup_lt_Some in Hpre; exact Hpre).
    rewrite <- (take_drop_middle _ _ _ Hpre) at 1.
    generalize (take i (take n range)) (drop (S i) (take n range)).
    intros l1 l2. rewrite <- app_assoc. cbn.
    rewrite <- !Permutation_middle. rewrite app_nil_r. reflexivity.
Qed.

(** C8.  For an array whose range holds its [size] elements and an index
    below [size], [unstable_remove] returns; it has written the last
    element over slot [index] and decremented [size]; the data pointer, the
    allocator, the length of the range, every other array and every other
    range are as before, and no range was created; the elements the array
    showed before are, up to order, the removed element followed by the
    elements it shows now.  For an index at or above [size] the assertion
    fails. *)
Theorem unstable_remove_removes {TYPE : Type} (m : Array.memory TYPE)
    (array : ptr) (a : Array.CArray) (range : list TYPE) (index : Z) :
  Array.arrays m !! array = Some a →
  Array.storage m !! Array.data a = Some range →
  0 <= Array.size a <= Z.of_nat (length range) →
  Array.size a < 2 ^ 32 →
  0 <= index →
  (index < Array.size a →
   ∃ m' last_ removed,
     range !! Z.to_nat (Array.size a - 1) = Some last_
     ∧ range !! Z.to_nat index = Some removed
     ∧ Array.unstable_remove m array index = Ret m'
     ∧ Array.arrays m' !! array
       = Some (Array.mkCArray (Array.size a - 1) (Array.data a)
                 (Array.allocator a))
     ∧ Array.storage m' !! Array.data a
       = Some (<[Z.to_nat index := last_]> range)
     ∧ length (<[Z.to_nat index := last_]> range) = length range
     ∧ (∀ b, b ≠ array → Array.arrays m' !! b = Array.arrays m !! b)
     ∧ (∀ r, r ≠ Array.data a → Array.storage m' !! r = Array.storage m !! r)
     ∧ dom (Array.storage m') = dom (Array.storage m)
     ∧ Array.elements m a = Some (take (Z.to_nat (Array.size a)) range)
     ∧ Array.elements m'
         (Array.mkCArray (Array.size a - 1) (Array.data a) (Array.allocator a))
       = Some (<[Z.to_nat index := last_]>
                 (take (Z.to_nat (Array.size a - 1)) range))
     ∧ take (Z.to_nat (Array.size a)) range
       ≡ₚ removed :: <[Z.to_nat index := last_]>
                       (take (Z.to_nat (Array.size a - 1)) range))
  ∧ (Array.size a <= index →
     Array.unstable_remove m array index = AssertFailure).
Proof.
  intros Ha Hrange Hsize Hmax Hindex. split.
  - intros Hlt.
    destruct (lookup_lt_is_Some_2 range (Z.to_nat (Array.size a - 1)))
      as [last_ Hlast]; [lia|].
    destruct (lookup_lt_is_Some_2 range (Z.to_nat index))
      as [removed Hrem]; [lia|].
    set (range' := <[Z.to_nat index := last_]> range).
    set (a' := Array.mkCArray (Array.size a - 1) (Array.data a)
                 (Array.allocator a)).
    exists (Array.store_array (Array.store_range m (Array.data a) range')
              array a'), last_, removed.
    split; [exact Hlast|]. split; [exact Hrem|].
    assert (wrap_uint (Array.size a - 1) = Array.size a - 1) as Hwrap.
    { apply wrap_uint_small. unfold is_uint. lia. }
    split.
    { unfold Array.unstable_remove, Array.load_array.
      rewrite Ha. cbn [deref mbind outcome_bind].
      rewrite bool_decide_eq_true_2 by exact Hlt. cbn [Assert mbind outcome_bind].
      rewrite Hrange. cbn [deref mbind outcome_bind].
      rewrite Hwrap, Hlast. cbn [deref mbind outcome_bind].
      rewrite Hrem. cbn [deref mbind outcome_bind Array.store_range Array.arrays].
      rewrite Ha. cbn [deref mbind outcome_bind]. rewrite Hwrap. reflexivity. }
    split; [cbn; apply lookup_insert_eq|].
    split; [cbn; apply lookup_insert_eq|].
    split; [apply length_insert|].
    split; [intros b Hb; cbn; apply lookup_insert_ne; done|].
    split; [intros r Hr; cbn; apply lookup_insert_ne; done|].
    split.
    { cbn. rewrite dom_insert_L. apply subseteq_union_1_L.
      apply singleton_subseteq_l, elem_of_dom. eauto. }
    split.
    { unfold Array.elements. rewrite Hrange. cbn.
      rewrite bool_decide_eq_true_2 by lia. reflexivity. }
    split.
    { unfold Array.elements. cbn. rewrite lookup_insert_eq. cbn.
      unfold range'. rewrite length_insert.
      rewrite bool_decide_eq_true_2 by lia. f_equal.
      destruct (decide (Z.to_nat index < Z.to_nat (Array.size a - 1))%nat).
      - apply take_insert_lt. assumption.
      - rewrite take_insert_ge by lia.
        rewrite list_insert_ge by (rewrite length_take; lia). reflexivity. }
    replace (Z.to_nat (Array.size a)) with (S (Z.to_nat (Array.size a - 1)))
      by lia.
    apply remove_by_last; [exact Hlast|exact Hrem|lia].
  - intros Hge. unfold Array.unstable_remove, Array.load_array.
    rewrite Ha. cbn [deref mbind outcome_bind].
    rewrite bool_decide_eq_false_2 by lia. reflexivity.
Qed.

Lemma unstable_remove_removes_witness :
  (∃ m', Array.unstable_remove sample_memory 1000 0 = Ret m'
         ∧ Array.arrays m' !! 1000 = Some (Array.mkCArray 2 5000 7000)
         ∧ Array.storage m' !! 5000 = Some [33; 22; 33])
  ∧ Array.unstable_remove sample_memory 1000 3 = AssertFailure.
Proof.
  destruct (unstable_remove_removes sample_memory 1000
              (Array.mkCArray 3 5000 7000) [11; 22; 33] 0)
    as [Hin Hout]; [reflexivity|reflexivity|cbn; lia|cbn; lia|lia|].
  split.
  - destruct Hin as (m' & last_ & removed & Hlast & _ & Hrun & Ha & Hs & _);
      [cbn; lia|].
    injection Hlast as <-. exists m'. repeat split; assumption.
  - destruct (unstable_remove_removes sample_memory 1000
                (Array.mkCArray 3 5000 7000) [11; 22; 33] 3)
      as [_ Hfail]; [reflexivity|reflexivity|cbn; lia|cbn; lia|lia|].
    apply Hfail. cbn. lia.
Defined.

(** ** The claim about the byte cursor *)

(** C9.  On a buffer whose storage has its [m_Size] bytes, [Write] of bytes
    that fit between the cursor and the end stores them from the cursor on,
    leaves every other byte and the capacity as they were, and advances the
    cursor by their number; a write that would pass the capacity fails with
    [OutOfBounds]. *)
Theorem Write_appends (this : clutl.DataBuffer) (data : list Byte.byte) :
  0 <= clutl.m_Position this →
  Z.of_nat (length (clutl.m_Data this)) = clutl.m_Size this →
  (clutl.m_Position this + Z.of_nat (length data) <= clutl.m_Size this →
   ∃ this',
     clutl.Write this data = clutl.Ok this'
     ∧ clutl.GetPosition this'
       = clutl.GetPosition this + Z.of_nat (length data)
     ∧ clutl.m_Size this' = clutl.m_Size this
     ∧ Z.of_nat (length (clutl.m_Data this')) = clutl.m_Size this'
     ∧ (∀ i : nat, (i < length data)%nat →
          clutl.m_Data this' !! (Z.to_nat (clutl.m_Position this) + i)%nat
          = data !! i)
     ∧ (∀ j : nat,
          (j < Z.to_nat (clutl.m_Position this))%nat
          ∨ (Z.to_nat (clutl.m_Position this) + length data <= j)%nat →
          clutl.m_Data this' !! j = clutl.m_Data this !! j))
  ∧ (clutl.m_Position this + Z.of_nat (length data) > clutl.m_Size this →
     clutl.Write this data = clutl.Err clutl.OutOfBounds).
Proof.
  destruct this as [bytes size pos]. cbn. intros Hpos Hsize. split.
  - intros Hfit. unfold clutl.Write. cbn.
    rewrite bool_decide_eq_false_2 by lia.
    eexists. split; [reflexivity|]. cbn.
    assert (length (take (Z.to_nat pos) bytes) = Z.to_nat pos) as Htake.
    { rewrite length_take. lia. }
    split; [reflexivity|]. split; [reflexivity|]. split; [|split].
    + rewrite !length_app, Htake, length_drop. lia.
    + intros i Hi. rewrite lookup_app_r by lia. rewrite Htake.
      replace (Z.to_nat pos + i - Z.to_nat pos)%nat with i by lia.
      apply lookup_app_l. exact Hi.
    + intros j [Hj|Hj].
      * rewrite lookup_app_l by lia. apply lookup_take_lt. exact Hj.
      * rewrite lookup_app_r by lia. rewrite Htake.
        rewrite lookup_app_r by lia. rewrite lookup_drop. f_equal. lia.
  - intros Hover. unfold clutl.Write. cbn.
    rewrite bool_decide_eq_true_2 by lia. reflexivity.
Qed.

Lemma Write_appends_witness :
  (∃ this', clutl.Write sample_buffer [Byte.x41; Byte.x42] = clutl.Ok this'
            ∧ clutl.GetPosition this' = 3)
  ∧ clutl.Write sample_buffer [Byte.x41; Byte.x42; Byte.x43; Byte.x44]
    = clutl.Err clutl.OutOfBounds.
Proof.
  split.
  - destruct (Write_appends sample_buffer [Byte.x41; Byte.x42])
      as [Hfit _]; [cbn; lia|reflexivity|].
    destruct Hfit as (this' & Hrun & Hpos & _); [cbn; lia|].
    exists this'. split; [exact Hrun|exact Hpos].
  - destruct (Write_appends sample_buffer
                [Byte.x41; Byte.x42; Byte.x43; Byte.x44])
      as [_ Hover]; [cbn; lia|reflexivity|].
    apply Hover. cbn. lia.
Defined.

(** * Further properties of the lookup *)

Lemma midpoint_halves (first last : Z) :
  0 <= first → first <= last → last < 2 ^ 30 →
  let mid := Z.quot (wrap_int (first + last)) 2 in
  2 * mid <= first + last <= 2 * mid + 1.
Proof.
  intros H0 Hle Hlt mid. subst mid.
  rewrite wrap_int_small by lia.
  rewrite Z.quot_div_nonneg by lia.
  pose proof (Z.div_mod (first + last) 2 ltac:(lia)) as Hdm.
  pose proof (Z.mod_pos_bound (first + last) 2 ltac:(lia)) as Hm.
  lia.
Qed.

(** Once the interval is shorter than 2^fuel, more fuel changes nothing:
    every iteration at least halves the interval. *)
Lemma BinarySearch_loop_fuel {ARRAY_TYPE COMPARE_L_TYPE COMPARE_R_TYPE : Type}
    (convert : ARRAY_TYPE → COMPARE_L_TYPE)
    (COMPARE_FUNC : COMPARE_L_TYPE → COMPARE_R_TYPE → outcome Z)
    (entries : list ARRAY_TYPE) (compare_value : COMPARE_R_TYPE) (fuel : nat) :
  Z.of_nat (length entries) <= 2 ^ 30 →
  ∀ first last fuel',
    0 <= first → last < Z.of_nat (length entries) →
    last - first + 1 < 2 ^ Z.of_nat fuel →
    last - first + 1 <= Z.of_nat fuel' →
    BinarySearch_loop convert COMPARE_FUNC fuel entries compare_value first last
    = BinarySearch_loop convert COMPARE_FUNC fuel' entries compare_value
        first last.
Proof.
  intros Hfit. induction fuel as [|fuel IH]; intros first last fuel' H0 Hlast Hpow Hfuel'.
  - cbn in Hpow. destruct fuel'; cbn [BinarySearch_loop];
      rewrite bool_decide_eq_false_2 by lia; reflexivity.
  - destruct (decide (first <= last)) as [Hle|Hgt].
    2:{ destruct fuel'; cbn [BinarySearch_loop];
          rewrite bool_decide_eq_false_2 by lia; reflexivity. }
    destruct fuel' as [|fuel']; [lia|].
    cbn [BinarySearch_loop]. rewrite bool_decide_eq_true_2 by exact Hle.
    destruct (midpoint_bounds first last) as (Hmid & Hup & Hdown); [lia..|].
    pose proof (midpoint_halves first last ltac:(lia) Hle ltac:(lia)) as Hhalf.
    cbv zeta in Hmid, Hup, Hdown, Hhalf. cbv zeta.
    set (mid := Z.quot (wrap_int (first + last)) 2) in *.
    rewrite Nat2Z.inj_succ, Z.pow_succ_r in Hpow by lia.
    destruct (CArray_at entries mid) as [e| | |]; cbn [mbind outcome_bind];
      try reflexivity.
    destruct (COMPARE_FUNC (convert e) compare_value) as [c| | |];
      cbn [mbind outcome_bind]; try reflexivity.
    rewrite Hup, Hdown.
    destruct (bool_decide (c > 0)); [apply IH; lia|].
    destruct (bool_decide (c < 0)); [apply IH; lia|reflexivity].
Qed.

(** X1.  Whatever the order of the entries, on an array of at most 2^30
    entries and with a comparison that returns on each of them, the search
    returns; its result is -1 or an index inside the array whose entry the
    comparison reports as equal.  An unsorted array can make the search
    miss, never make it return a wrong entry or leave the array. *)
Theorem BinarySearch_result_is_match
    {ARRAY_TYPE COMPARE_L_TYPE COMPARE_R_TYPE : Type}
    (convert : ARRAY_TYPE → COMPARE_L_TYPE)
    (COMPARE_FUNC : COMPARE_L_TYPE → COMPARE_R_TYPE → outcome Z)
    (entries : list ARRAY_TYPE) (compare_value : COMPARE_R_TYPE) :
  Z.of_nat (length entries) <= 2 ^ 30 →
  (∀ e, e ∈ entries → ∃ c, COMPARE_FUNC (convert e) compare_value = Ret c) →
  ∃ i, BinarySearch convert COMPARE_FUNC entries compare_value = Ret i
       ∧ (i = -1
          ∨ 0 <= i < Z.of_nat (length entries)
            ∧ ∃ e, entries !! Z.to_nat i = Some e
                   ∧ COMPARE_FUNC (convert e) compare_value = Ret 0).
Proof. intros Hfit Hret. apply BinarySearch_sound; assumption. Qed.

Lemma BinarySearch_result_is_match_witness :
  ∃ i, BinarySearch id crcpp.CompareNames
         [mkName 40 None; mkName 10 None; mkName 30 None] 30 = Ret i
       ∧ (i = -1
          ∨ 0 <= i < 3
            ∧ ∃ e, [mkName 40 None; mkName 10 None; mkName 30 None]
                     !! Z.to_nat i = Some e
                   ∧ crcpp.CompareNames (id e) 30 = Ret 0).
Proof.
  apply (BinarySearch_result_is_match id crcpp.CompareNames
           [mkName 40 None; mkName 10 None; mkName 30 None] 30).
  - cbn. lia.
  - intros e _. unfold crcpp.CompareNames. eauto.
Defined.

(** X2.  The search is logarithmic: on an array of fewer than 2^k entries
    the loop returns within k iterations, with the result of the search. *)
Theorem BinarySearch_logarithmic
    {ARRAY_TYPE COMPARE_L_TYPE COMPARE_R_TYPE : Type}
    (convert : ARRAY_TYPE → COMPARE_L_TYPE)
    (COMPARE_FUNC : COMPARE_L_TYPE → COMPARE_R_TYPE → outcome Z)
    (entries : list ARRAY_TYPE) (compare_value : COMPARE_R_TYPE) (k : nat) :
  Z.of_nat (length entries) <= 2 ^ 30 →
  (∀ e, e ∈ entries → ∃ c, COMPARE_FUNC (convert e) compare_value = Ret c) →
  Z.of_nat (length entries) < 2 ^ Z.of_nat k →
  ∃ i, BinarySearch_loop convert COMPARE_FUNC k entries compare_value 0
         (Z.of_nat (length entries) - 1) = Ret i
       ∧ BinarySearch convert COMPARE_FUNC entries compare_value = Ret i.
Proof.
  intros Hfit Hret Hk.
  destruct (BinarySearch_sound convert COMPARE_FUNC entries compare_value
              Hfit Hret) as (i & Hi & _).
  exists i. split; [|exact Hi]. rewrite <- Hi. unfold BinarySearch. cbv zeta.
  rewrite CArray_size_small by exact Hfit. rewrite wrap_int_small by lia.
  apply BinarySearch_loop_fuel; [exact Hfit|lia..].
Qed.

Lemma BinarySearch_logarithmic_witness :
  ∃ i, BinarySearch_loop id crcpp.CompareNames 3 four_names 40 0 3 = Ret i
       ∧ BinarySearch id crcpp.CompareNames four_names 40 = Ret i.
Proof.
  apply (BinarySearch_logarithmic id crcpp.CompareNames four_names 40 3).
  - cbn. lia.
  - intros e _. unfold crcpp.CompareNames. eauto.
  - cbn. lia.
Defined.

(** X3.  Ties are resolved by the search path: when the comparison is zero
    on every entry of a non-empty array, the search returns the middle
    index (length - 1) / 2, not the first one. *)
Theorem BinarySearch_all_equal
    {ARRAY_TYPE COMPARE_L_TYPE COMPARE_R_TYPE : Type}
    (convert : ARRAY_TYPE → COMPARE_L_TYPE)
    (COMPARE_FUNC : COMPARE_L_TYPE → COMPARE_R_TYPE → outcome Z)
    (entries : list ARRAY_TYPE) (compare_value : COMPARE_R_TYPE) :
  0 < Z.of_nat (length entries) <= 2 ^ 30 →
  (∀ e, e ∈ entries → COMPARE_FUNC (convert e) compare_value = Ret 0) →
  BinarySearch convert COMPARE_FUNC entries compare_value
  = Ret ((Z.of_nat (length entries) - 1) / 2).
Proof.
  intros Hlen Hzero. unfold BinarySearch. cbv zeta.
  rewrite CArray_size_small by lia. rewrite wrap_int_small by lia.
  cbn [BinarySearch_loop]. rewrite bool_decide_eq_true_2 by lia.
  destruct (midpoint_bounds 0 (Z.of_nat (length entries) - 1))
    as (Hmid & _ & _); [lia..|].
  cbv zeta in Hmid. cbv zeta.
  assert (Z.quot (wrap_int (0 + (Z.of_nat (length entries) - 1))) 2
          = (Z.of_nat (length entries) - 1) / 2) as Hq.
  { rewrite wrap_int_small by lia. rewrite Z.quot_div_nonneg by lia.
    f_equal. }
  rewrite Hq in *.
  destruct (CArray_at_lookup entries ((Z.of_nat (length entries) - 1) / 2))
    as (e & He & Hat); [lia..|].
  rewrite Hat. cbn [mbind outcome_bind].
  rewrite (Hzero e) by (eapply list_elem_of_lookup_2; exact He).
  cbn [mbind outcome_bind].
  rewrite !bool_decide_eq_false_2 by lia. reflexivity.
Qed.

Lemma BinarySearch_all_equal_witness :
  BinarySearch id crcpp.CompareNames
    [mkName 7 None; mkName 7 None; mkName 7 None; mkName 7 None; mkName 7 None] 7
  = Ret 2.
Proof.
  apply (BinarySearch_all_equal id crcpp.CompareNames
           [mkName 7 None; mkName 7 None; mkName 7 None; mkName 7 None;
            mkName 7 None] 7).
  - cbn. lia.
  - intros e He. rewrite !elem_of_cons in He. rewrite elem_of_nil in He.
    destruct He as [->|[->|[->|[->|[->|[]]]]]]; reflexivity.
Defined.

(** ** The lookups of the facade on a loaded database *)

Lemma compare_wraps_negative (h k : Z) :
  is_uint h → is_uint k → h - k >= 2 ^ 31 →
  wrap_int (wrap_uint (h - k)) = h - k - 2 ^ 32.
Proof.
  unfold is_uint, wrap_int, wrap_uint. intros Hh Hk Hd.
  rewrite (Z.mod_small (h - k)) by lia.
  replace (h - k + 2 ^ 31) with ((h - k - 2 ^ 31) + 1 * 2 ^ 32) by lia.
  rewrite Z.mod_add, Z.mod_small; lia.
Qed.

Lemma GetType_loaded (σ : crcpp.store) (mem : crcpp.DatabaseMem) (h : Z) :
  crcpp.GetType σ (crcpp.mkDatabase (Some mem)) h
  = crcpp.FindPrimitive σ (crcpp.type_primitives mem) h.
Proof. reflexivity. Qed.

Lemma GetNamespace_loaded (σ : crcpp.store) (mem : crcpp.DatabaseMem) (h : Z) :
  crcpp.GetNamespace σ (crcpp.mkDatabase (Some mem)) h
  = crcpp.FindPrimitive σ (crcpp.namespaces mem) h.
Proof. reflexivity. Qed.

Lemma GetFunction_loaded (σ : crcpp.store) (mem : crcpp.DatabaseMem) (h : Z) :
  crcpp.GetFunction σ (crcpp.mkDatabase (Some mem)) h
  = crcpp.FindPrimitive σ (crcpp.functions mem) h.
Proof. reflexivity. Qed.

Lemma FindPrimitive_null_or_match (σ : crcpp.store) (primitives : list ptr)
    (h : Z) :
  valid_primitives σ primitives → is_uint h →
  ∃ r, crcpp.FindPrimitive σ primitives h = Ret r
       ∧ null_or_match σ primitives h r.
Proof.
  intros (Hfit & Hvalid & Huint) Hh.
  destruct (FindPrimitive_sound σ primitives h Hvalid Hfit)
    as (r & Hr & [->|(Hin & prim & Hp & Hc)]).
  - exists NULL. split; [exact Hr|left; reflexivity].
  - exists r. split; [exact Hr|right]. split; [exact Hin|].
    exists prim. split; [exact Hp|].
    apply (compare_zero h _ Hh (Huint r prim Hin Hp)) in Hc. congruence.
Qed.

Lemma FindPrimitive_entry_with_hash (σ : crcpp.store) (primitives : list ptr)
    (h : Z) (e : ptr) :
  valid_primitives σ primitives → is_uint h →
  sorted_by_hash (hash_at σ) primitives →
  near_every_entry σ primitives h →
  e ∈ primitives → hash_at σ e = h →
  ∃ r, crcpp.FindPrimitive σ primitives h = Ret r
       ∧ entry_with_hash σ primitives h r.
Proof.
  intros (Hfit & Hvalid & Huint) Hh Hsorted Hnear Hin He.
  destruct (Hvalid e Hin) as [prim_e Hprim].
  destruct (FindPrimitive_finds_near σ primitives h Hvalid Hfit Huint Hh
              e prim_e Hsorted Hnear Hin Hprim) as (r & prim & Hr & Hrin & Hp & Hk).
  { unfold hash_at in He. rewrite Hprim in He. exact He. }
  exists r. split; [exact Hr|]. split; [exact Hrin|]. eauto.
Qed.

(** X4.  The overflow of the comparison, in general: for any two names whose
    hashes are 2^31 or more apart, the table holding them in ascending order
    is sorted and contains the second, yet the search for the hash of the
    second returns -1, and [GetName] on a text with that hash returns the
    empty [Name]. *)
Theorem GetName_misses_distant_name (HashNameString : string → Z)
    (a b : Name) (s : string) :
  is_uint (hash a) → is_uint (hash b) → hash b - hash a >= 2 ^ 31 →
  wrap_uint (HashNameString s) = hash b →
  sorted_by_hash hash [a; b]
  ∧ b ∈ [a; b]
  ∧ BinarySearch id crcpp.CompareNames [a; b] (hash b) = Ret (-1)
  ∧ crcpp.GetName HashNameString
      (crcpp.mkDatabase (Some (block_with_names [a; b]))) (Some s)
    = Ret Name_default.
Proof.
  intros Ha Hb Hfar Hs.
  assert (BinarySearch id crcpp.CompareNames [a; b] (hash b) = Ret (-1))
    as Hsearch.
  { unfold BinarySearch. cbv zeta.
    change (wrap_int (CArray_size [a; b] - 1)) with 1.
    cbn [BinarySearch_loop length].
    change (Z.quot (wrap_int (0 + 1)) 2) with 0.
    change (CArray_at [a; b] 0) with (Ret a).
    change (wrap_int (0 - 1)) with (-1).
    unfold crcpp.CompareNames, id. cbn [mbind outcome_bind].
    rewrite (compare_wraps_negative (hash b) (hash a) Hb Ha Hfar).
    unfold is_uint in *.
    rewrite (bool_decide_eq_true_2 (0 <= 1)) by lia.
    rewrite bool_decide_eq_false_2 by lia.
    rewrite bool_decide_eq_true_2 by lia.
    rewrite bool_decide_eq_false_2 by lia. reflexivity. }
  split; [|split; [|split]].
  - intros i j e e' Hij Hi Hj. unfold is_uint in *.
    destruct i as [|[|i]]; destruct j as [|[|j]]; simplify_eq/=; lia.
  - set_solver.
  - exact Hsearch.
  - unfold crcpp.GetName. cbv zeta. rewrite Hs.
    unfold is_uint in *. rewrite bool_decide_eq_false_2 by lia.
    cbn [crcpp.m_DatabaseMem deref mbind outcome_bind block_with_names
         crcpp.names].
    rewrite Hsearch. reflexivity.
Qed.

Lemma GetName_misses_distant_name_witness :
  BinarySearch id crcpp.CompareNames
    [mkName 3 None; mkName 4294967295 None] 4294967295 = Ret (-1)
  ∧ crcpp.GetName (λ _, 4294967295)
      (crcpp.mkDatabase
         (Some (block_with_names [mkName 3 None; mkName 4294967295 None])))
      (Some EmptyString)
    = Ret Name_default.
Proof.
  destruct (GetName_misses_distant_name (λ _, 4294967295)
              (mkName 3 None) (mkName 4294967295 None) EmptyString)
    as (_ & _ & Hsearch & Hname).
  - unfold is_uint. cbn. lia.
  - unfold is_uint. cbn. lia.
  - cbn. lia.
  - reflexivity.
  - split; [exact Hsearch|exact Hname].
Defined.

(** X5.  On a loaded database whose name table has at most 2^30 entries
    with 32-bit hashes, [GetName] on any text returns, whatever the order of
    the table; the name it returns is the empty [Name] or an entry of the
    table whose hash is the non-zero hash of the text. *)
Theorem GetName_result (HashNameString : string → Z)
    (mem : crcpp.DatabaseMem) (s : string) :
  Z.of_nat (length (crcpp.names mem)) <= 2 ^ 30 →
  (∀ n, n ∈ crcpp.names mem → is_uint (hash n)) →
  ∃ n, crcpp.GetName HashNameString (crcpp.mkDatabase (Some mem)) (Some s)
       = Ret n
       ∧ (n = Name_default
          ∨ n ∈ crcpp.names mem
            ∧ hash n = wrap_uint (HashNameString s) ∧ hash n ≠ 0).
Proof.
  intros Hfit Huint. unfold crcpp.GetName. cbv zeta.
  destruct (decide (wrap_uint (HashNameString s) = 0)) as [Hz|Hnz].
  { rewrite bool_decide_eq_true_2 by exact Hz. eauto. }
  rewrite bool_decide_eq_false_2 by exact Hnz.
  cbn [crcpp.m_DatabaseMem deref mbind outcome_bind].
  destruct (BinarySearch_sound id crcpp.CompareNames (crcpp.names mem)
              (wrap_uint (HashNameString s)) Hfit) as (i & Hi & Hres).
  { intros e _. unfold crcpp.CompareNames. eauto. }
  rewrite Hi. cbn [mbind outcome_bind].
  destruct Hres as [->|[Hr (n & Hn & Hc)]]; [eauto|].
  rewrite bool_decide_eq_false_2 by lia.
  destruct (CArray_at_lookup (crcpp.names mem) i) as (n' & Hn' & Hat); [lia..|].
  rewrite Hn in Hn'. injection Hn' as <-. rewrite Hat.
  exists n. split; [reflexivity|right].
  assert (n ∈ crcpp.names mem) as Hin by (eapply list_elem_of_lookup_2; exact Hn).
  unfold crcpp.CompareNames, id in Hc. injection Hc as Hc.
  apply (compare_zero _ _ (wrap_uint_is_uint _) (Huint n Hin)) in Hc.
  split; [exact Hin|]. split; congruence.
Qed.

Lemma GetName_result_witness :
  ∃ n, crcpp.GetName (λ _, 30) (crcpp.mkDatabase (Some four_block)) (Some EmptyString)
       = Ret n
       ∧ (n = Name_default
          ∨ n ∈ four_names ∧ hash n = wrap_uint 30 ∧ hash n ≠ 0).
Proof.
  apply (GetName_result (λ _, 30) four_block EmptyString).
  - cbn. lia.
  - intros n Hn. cbn in Hn. unfold four_names in Hn.
    rewrite !elem_of_cons in Hn. rewrite elem_of_nil in Hn.
    destruct Hn as [->|[->|[->|[->|[]]]]]; unfold is_uint; cbn; lia.
Defined.

(** X6.  Lookup after load: when the name table is sorted ascending by hash
    and the hash of the text is non-zero, carried by an entry, and less than
    2^31 away from every hash of the table, [GetName] returns an entry of
    the table with that hash. *)
Theorem GetName_finds (HashNameString : string → Z)
    (mem : crcpp.DatabaseMem) (s : string) (n0 : Name) :
  Z.of_nat (length (crcpp.names mem)) <= 2 ^ 30 →
  (∀ n, n ∈ crcpp.names mem → is_uint (hash n)) →
  sorted_by_hash hash (crcpp.names mem) →
  (∀ n, n ∈ crcpp.names mem →
        - 2 ^ 31 <= wrap_uint (HashNameString s) - hash n < 2 ^ 31) →
  n0 ∈ crcpp.names mem →
  hash n0 = wrap_uint (HashNameString s) → hash n0 ≠ 0 →
  ∃ n, crcpp.GetName HashNameString (crcpp.mkDatabase (Some mem)) (Some s)
       = Ret n
       ∧ n ∈ crcpp.names mem ∧ hash n = hash n0.
Proof.
  intros Hfit Huint Hsorted Hnear Hin Hh Hnz. unfold crcpp.GetName. cbv zeta.
  rewrite bool_decide_eq_false_2 by congruence.
  cbn [crcpp.m_DatabaseMem deref mbind outcome_bind].
  destruct (BinarySearch_finds id crcpp.CompareNames hash (crcpp.names mem)
              (wrap_uint (HashNameString s)) Hfit)
    with (e := n0) as (i & n & Hi & Hr & Hl & Hk).
  - intros e _. reflexivity.
  - exact Huint.
  - apply wrap_uint_is_uint.
  - exact Hsorted.
  - exact Hnear.
  - exact Hin.
  - exact Hh.
  - rewrite Hi. cbn [mbind outcome_bind].
    rewrite bool_decide_eq_false_2 by lia.
    destruct (CArray_at_lookup (crcpp.names mem) i) as (n' & Hn' & Hat);
      [lia..|].
    rewrite Hl in Hn'. injection Hn' as <-. rewrite Hat.
    exists n. split; [reflexivity|]. split; [|congruence].
    eapply list_elem_of_lookup_2. exact Hl.
Qed.

Lemma GetName_finds_witness :
  ∃ n, crcpp.GetName (λ _, 30) (crcpp.mkDatabase (Some four_block)) (Some EmptyString)
       = Ret n
       ∧ n ∈ four_names ∧ hash n = 30.
Proof.
  apply (GetName_finds (λ _, 30) four_block EmptyString (mkName 30 None)).
  - cbn. lia.
  - intros n Hn. cbn in Hn. unfold four_names in Hn.
    rewrite !elem_of_cons in Hn. rewrite elem_of_nil in Hn.
    destruct Hn as [->|[->|[->|[->|[]]]]]; unfold is_uint; cbn; lia.
  - intros i j e e' Hij Hi Hj. cbn in Hi, Hj. unfold four_names in Hi, Hj.
    destruct i as [|[|[|[|i]]]]; destruct j as [|[|[|[|j]]]];
      simplify_eq/=; lia.
  - intros n Hn. cbn in Hn. unfold four_names in Hn.
    rewrite !elem_of_cons in Hn. rewrite elem_of_nil in Hn.
    destruct Hn as [->|[->|[->|[->|[]]]]];
      change (wrap_uint 30) with 30; cbn; lia.
  - cbn. unfold four_names. set_solver.
  - reflexivity.
  - cbn. lia.
Defined.

Lemma four_array_valid : valid_primitives four_store four_array.
Proof.
  split; [cbn; lia|]. split.
  - intros p Hp. unfold four_array in Hp.
    rewrite !elem_of_cons in Hp. rewrite elem_of_nil in Hp.
    destruct Hp as [->|[->|[->|[->|[]]]]]; vm_compute; eauto.
  - intros p prim Hp Hprim. unfold four_array in Hp.
    rewrite !elem_of_cons in Hp. rewrite elem_of_nil in Hp.
    destruct Hp as [->|[->|[->|[->|[]]]]]; vm_compute in Hprim;
      injection Hprim as <-; unfold is_uint; cbn; lia.
Qed.

Lemma four_array_sorted : sorted_by_hash (hash_at four_store) four_array.
Proof.
  intros i j e e' Hij Hi Hj. unfold four_array in Hi, Hj.
  destruct i as [|[|[|[|i]]]]; destruct j as [|[|[|[|j]]]];
    simplify_eq/=; try lia; vm_compute; discriminate.
Qed.

Lemma four_array_near (h : Z) :
  0 <= h <= 100 → near_every_entry four_store four_array h.
Proof.
  intros Hh p prim Hp Hprim. unfold four_array in Hp.
  rewrite !elem_of_cons in Hp. rewrite elem_of_nil in Hp.
  destruct Hp as [->|[->|[->|[->|[]]]]]; vm_compute in Hprim;
    injection Hprim as <-; cbn; lia.
Qed.

(** X7.  On a loaded database, [GetType], [GetNamespace] and [GetFunction]
    return for every 32-bit hash, whatever the order of their array, as long
    as the array is valid; the pointer returned is null or an entry of the
    array whose primitive carries the hash.  So a hash that no entry carries
    yields null, and no lookup returns a primitive with another hash. *)
Theorem primitive_lookups_result (σ : crcpp.store) (mem : crcpp.DatabaseMem)
    (h : Z) :
  is_uint h →
  (valid_primitives σ (crcpp.type_primitives mem) →
   ∃ r, crcpp.GetType σ (crcpp.mkDatabase (Some mem)) h = Ret r
        ∧ null_or_match σ (crcpp.type_primitives mem) h r)
  ∧ (valid_primitives σ (crcpp.namespaces mem) →
     ∃ r, crcpp.GetNamespace σ (crcpp.mkDatabase (Some mem)) h = Ret r
          ∧ null_or_match σ (crcpp.namespaces mem) h r)
  ∧ (valid_primitives σ (crcpp.functions mem) →
     ∃ r, crcpp.GetFunction σ (crcpp.mkDatabase (Some mem)) h = Ret r
          ∧ null_or_match σ (crcpp.functions mem) h r).
Proof.
  intros Hh. split; [|split]; intros Hvalid.
  - rewrite GetType_loaded. apply FindPrimitive_null_or_match; assumption.
  - rewrite GetNamespace_loaded. apply FindPrimitive_null_or_match; assumption.
  - rewrite GetFunction_loaded. apply FindPrimitive_null_or_match; assumption.
Qed.

Lemma primitive_lookups_result_witness :
  (∃ r, crcpp.GetType four_store (crcpp.mkDatabase (Some four_block)) 25 = Ret r
        ∧ null_or_match four_store four_array 25 r)
  ∧ (∃ r, crcpp.GetNamespace four_store (crcpp.mkDatabase (Some four_block)) 25
          = Ret r
          ∧ null_or_match four_store four_array 25 r)
  ∧ (∃ r, crcpp.GetFunction four_store (crcpp.mkDatabase (Some four_block)) 25
          = Ret r
          ∧ null_or_match four_store four_array 25 r).
Proof.
  destruct (primitive_lookups_result four_store four_block 25)
    as (Ht & Hn & Hf); [unfold is_uint; lia|].
  split; [apply Ht, four_array_valid|].
  split; [apply Hn, four_array_valid|apply Hf, four_array_valid].
Defined.

(** X8.  Lookup after load: on a valid array sorted ascending by hash,
    [GetType], [GetNamespace] and [GetFunction] return an entry carrying the
    searched hash whenever some entry carries it and the hash is less than
    2^31 away from the hash of every entry. *)
Theorem primitive_lookups_find (σ : crcpp.store) (mem : crcpp.DatabaseMem)
    (h : Z) (e : ptr) :
  is_uint h → hash_at σ e = h →
  (valid_primitives σ (crcpp.type_primitives mem) →
   sorted_by_hash (hash_at σ) (crcpp.type_primitives mem) →
   near_every_entry σ (crcpp.type_primitives mem) h →
   e ∈ crcpp.type_primitives mem →
   ∃ r, crcpp.GetType σ (crcpp.mkDatabase (Some mem)) h = Ret r
        ∧ entry_with_hash σ (crcpp.type_primitives mem) h r)
  ∧ (valid_primitives σ (crcpp.namespaces mem) →
     sorted_by_hash (hash_at σ) (crcpp.namespaces mem) →
     near_every_entry σ (crcpp.namespaces mem) h →
     e ∈ crcpp.namespaces mem →
     ∃ r, crcpp.GetNamespace σ (crcpp.mkDatabase (Some mem)) h = Ret r
          ∧ entry_with_hash σ (crcpp.namespaces mem) h r)
  ∧ (valid_primitives σ (crcpp.functions mem) →
     sorted_by_hash (hash_at σ) (crcpp.functions mem) →
     near_every_entry σ (crcpp.functions mem) h →
     e ∈ crcpp.functions mem →
     ∃ r, crcpp.GetFunction σ (crcpp.mkDatabase (Some mem)) h = Ret r
          ∧ entry_with_hash σ (crcpp.functions mem) h r).
Proof.
  intros Hh He. split; [|split]; intros Hvalid Hsorted Hnear Hin.
  - rewrite GetType_loaded.
    apply (FindPrimitive_entry_with_hash σ _ h e); assumption.
  - rewrite GetNamespace_loaded.
    apply (FindPrimitive_entry_with_hash σ _ h e); assumption.
  - rewrite GetFunction_loaded.
    apply (FindPrimitive_entry_with_hash σ _ h e); assumption.
Qed.

Lemma primitive_lookups_find_witness :
  (∃ r, crcpp.GetType four_store (crcpp.mkDatabase (Some four_block)) 40 = Ret r
        ∧ entry_with_hash four_store four_array 40 r)
  ∧ (∃ r, crcpp.GetNamespace four_store (crcpp.mkDatabase (Some four_block)) 40
          = Ret r
          ∧ entry_with_hash four_store four_array 40 r)
  ∧ (∃ r, crcpp.GetFunction four_store (crcpp.mkDatabase (Some four_block)) 40
          = Ret r
          ∧ entry_with_hash four_store four_array 40 r).
Proof.
  assert (64 ∈ four_array) as Hin by (unfold four_array; set_solver).
  destruct (primitive_lookups_find four_store four_block 40 64)
    as (Ht & Hn & Hf); [unfold is_uint; lia|reflexivity|].
  split; [|split].
  - apply Ht; [apply four_array_valid|apply four_array_sorted
              |apply four_array_near; lia|exact Hin].
  - apply Hn; [apply four_array_valid|apply four_array_sorted
              |apply four_array_near; lia|exact Hin].
  - apply Hf; [apply four_array_valid|apply four_array_sorted
              |apply four_array_near; lia|exact Hin].
Defined.

(** X9.  [Load] does not keep the block the facade held: after a [Load] the
    loader rejects, a facade that was loaded is not loaded any more, and the
    lookups that read the block run into the null [m_DatabaseMem]. *)
Theorem Load_failure_drops_database {IFile : Type}
    (LoadMemoryMappedDatabase : IFile → option crcpp.DatabaseMem)
    (HashNameString : string → Z) (σ : crcpp.store)
    (this : crcpp.Database) (file : IFile) (h : Z) (s : string) :
  LoadMemoryMappedDatabase file = None →
  wrap_uint (HashNameString s) ≠ 0 →
  let this' := (crcpp.Load IFile LoadMemoryMappedDatabase this file).1 in
  crcpp.IsLoaded this' = false
  ∧ crcpp.GetType σ this' h = Undefined
  ∧ crcpp.GetNamespace σ this' h = Undefined
  ∧ crcpp.GetFunction σ this' h = Undefined
  ∧ crcpp.GetName HashNameString this' (Some s) = Undefined.
Proof.
  intros Hnone Hs. unfold crcpp.Load. cbn. rewrite Hnone.
  repeat split. unfold crcpp.GetName. cbv zeta.
  rewrite bool_decide_eq_false_2 by exact Hs. reflexivity.
Qed.

Lemma Load_failure_drops_database_witness :
  crcpp.IsLoaded (crcpp.mkDatabase (Some four_block)) = true
  ∧ crcpp.GetType four_store (crcpp.mkDatabase (Some four_block)) 30 = Ret 48
  ∧ crcpp.GetType four_store
      (crcpp.Load bool bool_loader (crcpp.mkDatabase (Some four_block)) false).1
      30 = Undefined.
Proof.
  split; [reflexivity|]. split; [vm_compute; reflexivity|].
  apply (Load_failure_drops_database bool_loader (λ _, 30) four_store
           (crcpp.mkDatabase (Some four_block)) false 30 EmptyString).
  - reflexivity.
  - vm_compute. discriminate.
Defined.

(** * Further properties of the primitive model *)

(** X10.  [Qualifier::operator ==] holds exactly between equal qualifiers: it
    compares both members and nothing else. *)
Theorem Qualifier_eq_is_equality (a b : clcpp.Qualifier) :
  clcpp.Qualifier_eq a b = true ↔ a = b.
Proof.
  unfold clcpp.Qualifier_eq. rewrite andb_true_iff, !bool_decide_eq_true.
  destruct a as [oa ca], b as [ob cb]. cbn. split.
  - intros [-> ->]. reflexivity.
  - intros Heq. injection Heq as -> ->. split; reflexivity.
Qed.

(** X11.  The kind a constructor stores is the kind its cast checks: a
    default-constructed [Enum], [TemplateType], [Class], [IntAttribute],
    [FloatAttribute], [NameAttribute] or [TextAttribute] is returned by the
    cast to its own type and stops every other cast of its family in the
    assertion; a plain [Type], a base [Attribute] and a [FlagAttribute] stop
    every cast of their family. *)
Theorem constructed_nodes_and_casts (σ : clcpp.store) (this : ptr) :
  (σ !! this = Some clcpp.Enum_new →
   clcpp.AsEnum σ this = Ret this
   ∧ clcpp.AsTemplateType σ this = AssertFailure
   ∧ clcpp.AsClass σ this = AssertFailure)
  ∧ (σ !! this = Some clcpp.TemplateType_new →
     clcpp.AsEnum σ this = AssertFailure
     ∧ clcpp.AsTemplateType σ this = Ret this
     ∧ clcpp.AsClass σ this = AssertFailure)
  ∧ (σ !! this = Some clcpp.Class_new →
     clcpp.AsEnum σ this = AssertFailure
     ∧ clcpp.AsTemplateType σ this = AssertFailure
     ∧ clcpp.AsClass σ this = Ret this)
  ∧ (σ !! this = Some clcpp.Type_new →
     clcpp.AsEnum σ this = AssertFailure
     ∧ clcpp.AsTemplateType σ this = AssertFailure
     ∧ clcpp.AsClass σ this = AssertFailure)
  ∧ (σ !! this = Some clcpp.IntAttribute_new →
     clcpp.AsIntAttribute σ this = Ret this
     ∧ clcpp.AsFloatAttribute σ this = AssertFailure
     ∧ clcpp.AsNameAttribute σ this = AssertFailure
     ∧ clcpp.AsTextAttribute σ this = AssertFailure)
  ∧ (σ !! this = Some clcpp.FloatAttribute_new →
     clcpp.AsIntAttribute σ this = AssertFailure
     ∧ clcpp.AsFloatAttribute σ this = Ret this
     ∧ clcpp.AsNameAttribute σ this = AssertFailure
     ∧ clcpp.AsTextAttribute σ this = AssertFailure)
  ∧ (σ !! this = Some clcpp.NameAttribute_new →
     clcpp.AsIntAttribute σ this = AssertFailure
     ∧ clcpp.AsFloatAttribute σ this = AssertFailure
     ∧ clcpp.AsNameAttribute σ this = Ret this
     ∧ clcpp.AsTextAttribute σ this = AssertFailure)
  ∧ (σ !! this = Some clcpp.TextAttribute_new →
     clcpp.AsIntAttribute σ this = AssertFailure
     ∧ clcpp.AsFloatAttribute σ this = AssertFailure
     ∧ clcpp.AsNameAttribute σ this = AssertFailure
     ∧ clcpp.AsTextAttribute σ this = Ret this)
  ∧ (σ !! this = Some clcpp.Attribute_new
     ∨ σ !! this = Some clcpp.FlagAttribute_new →
     clcpp.AsIntAttribute σ this = AssertFailure
     ∧ clcpp.AsFloatAttribute σ this = AssertFailure
     ∧ clcpp.AsNameAttribute σ this = AssertFailure
     ∧ clcpp.AsTextAttribute σ this = AssertFailure).
Proof.
  unfold clcpp.AsEnum, clcpp.AsTemplateType, clcpp.AsClass,
    clcpp.AsIntAttribute, clcpp.AsFloatAttribute, clcpp.AsNameAttribute,
    clcpp.AsTextAttribute.
  repeat split;
    repeat match goal with H : _ ∨ _ |- _ => destruct H end;
    match goal with H : σ !! this = Some _ |- _ => rewrite H end;
    reflexivity.
Qed.

Lemma constructed_nodes_and_casts_witness :
  clcpp.AsClass (<[8 := clcpp.Class_new]> ∅) 8 = Ret 8
  ∧ clcpp.AsEnum (<[8 := clcpp.Class_new]> ∅) 8 = AssertFailure
  ∧ clcpp.AsTextAttribute (<[8 := clcpp.FlagAttribute_new]> ∅) 8
    = AssertFailure.
Proof.
  destruct (constructed_nodes_and_casts (<[8 := clcpp.Class_new]> ∅) 8)
    as (_ & _ & Hclass & _).
  destruct (constructed_nodes_and_casts (<[8 := clcpp.FlagAttribute_new]> ∅) 8)
    as (_ & _ & _ & _ & _ & _ & _ & _ & Hflag).
  destruct (Hclass eq_refl) as (H1 & _ & H3).
  destruct (Hflag (or_intror eq_refl)) as (_ & _ & _ & H4).
  split; [exact H3|]. split; [exact H1|exact H4].
Defined.

(** * Further properties of the array helpers *)

Section Array_facts.
Import Array.
Context {TYPE : Type}.
Variable Alloc : gmap Z (list TYPE) → ptr → Z → ptr.
Variable sizeof_TYPE : Z.
Variable TYPE_new uninitialised : TYPE.
Hypothesis Alloc_answers : answers Alloc.
Hypothesis sizeof_positive : 0 < sizeof_TYPE.

Lemma store_range_twice (m : memory TYPE) (p : ptr) (r1 r2 : list TYPE) :
  store_range (store_range m p r1) p r2 = store_range m p r2.
Proof. unfold store_range. cbn. rewrite insert_insert_eq. reflexivity. Qed.

Lemma store_range_same (m : memory TYPE) (p : ptr) (r : list TYPE) :
  storage m !! p = Some r → store_range m p r = m.
Proof.
  intros Hr. destruct m as [ar st]. unfold store_range. cbn in *.
  rewrite insert_id by exact Hr. reflexivity.
Qed.

Lemma CallConstructor_loop_fill (n : nat) :
  ∀ (i : nat) (m : memory TYPE) (p : ptr) (range : list TYPE),
    storage m !! p = Some range → (i + n <= length range)%nat →
    CallConstructor_loop TYPE_new n i m p
    = Ret (store_range m p
             (take i range ++ replicate n TYPE_new ++ drop (i + n) range)).
Proof.
  induction n as [|n IH]; intros i m p range Hr Hlen.
  - cbn. rewrite Nat.add_0_r, take_drop.
    rewrite store_range_same by exact Hr. reflexivity.
  - cbn [CallConstructor_loop]. rewrite Hr. cbn [deref mbind outcome_bind].
    destruct (lookup_lt_is_Some_2 range i) as [x Hx]; [lia|].
    rewrite Hx. cbn [deref mbind outcome_bind].
    rewrite (IH (S i) _ p (<[i := TYPE_new]> range));
      [|cbn; apply lookup_insert_eq|rewrite length_insert; lia].
    rewrite store_range_twice. f_equal. f_equal.
    rewrite take_insert_lt by lia.
    rewrite drop_insert_lt by lia.
    rewrite (take_S_r _ _ _ Hx).
    rewrite insert_app_r_alt by (rewrite length_take; lia).
    rewrite length_take. replace (i - i `min` length range)%nat with 0%nat by lia.
    cbn. rewrite <- app_assoc. cbn.
    replace (i + S n)%nat with (S (i + n))%nat by lia. reflexivity.
Qed.

Lemma CallDestructor_loop_reaches (n : nat) :
  ∀ (i : nat) (m : memory TYPE) (p : ptr) (range : list TYPE),
    storage m !! p = Some range → (i + n <= length range)%nat →
    CallDestructor_loop n i m p = Ret tt.
Proof.
  induction n as [|n IH]; intros i m p range Hr Hlen; [reflexivity|].
  cbn [CallDestructor_loop]. rewrite Hr. cbn [deref mbind outcome_bind].
  destruct (lookup_lt_is_Some_2 range i) as [x Hx]; [lia|].
  rewrite Hx. cbn [deref mbind outcome_bind].
  apply (IH (S i) m p range Hr). lia.
Qed.

Lemma allocate_block (m : memory TYPE) (allocator_ : ptr) (n : Z) :
  allocator_ ≠ NULL → 0 <= n → n * sizeof_TYPE < 2 ^ 32 →
  allocate Alloc sizeof_TYPE uninitialised m allocator_
    (wrap_uint (n * sizeof_TYPE))
  = Ret (Alloc (storage m) allocator_ (n * sizeof_TYPE),
         store_range m (Alloc (storage m) allocator_ (n * sizeof_TYPE))
           (replicate (Z.to_nat n) uninitialised)).
Proof.
  intros Ha Hn Hmax. unfold allocate.
  rewrite wrap_uint_small by (unfold is_uint; nia).
  rewrite bool_decide_eq_false_2 by exact Ha. cbv zeta.
  destruct (Alloc_answers (storage m) allocator_ (n * sizeof_TYPE)) as [Hp _].
  rewrite bool_decide_eq_false_2 by exact Hp.
  rewrite Z.div_mul by lia. reflexivity.
Qed.

Lemma CArray_new_sized_run (m : memory TYPE) (this : ptr) (_size : Z)
    (_allocator : ptr) :
  _allocator ≠ NULL → 0 <= _size → _size * sizeof_TYPE < 2 ^ 32 →
  CArray_new_sized Alloc sizeof_TYPE TYPE_new uninitialised m this _size
    _allocator
  = Ret (store_array
           (store_range m (Alloc (storage m) _allocator (_size * sizeof_TYPE))
              (replicate (Z.to_nat _size) TYPE_new))
           this
           {| size := _size;
              data := Alloc (storage m) _allocator (_size * sizeof_TYPE);
              allocator := _allocator |}).
Proof.
  intros Ha Hn Hmax. unfold CArray_new_sized.
  rewrite allocate_block by assumption. cbn [mbind outcome_bind].
  rewrite (CallConstructor_loop_fill _ 0 _ _
             (replicate (Z.to_nat _size) uninitialised));
    [|cbn; apply lookup_insert_eq|rewrite length_replicate; lia].
  cbn [mbind outcome_bind]. rewrite store_range_twice.
  rewrite drop_ge by (rewrite length_replicate; lia).
  cbn. rewrite app_nil_r. reflexivity.
Qed.
End Array_facts.

Section Array_copy_facts.
Import Array.
Context {TYPE : Type}.
Variable Alloc : gmap Z (list TYPE) → ptr → Z → ptr.
Variable sizeof_TYPE : Z.
Variable uninitialised : TYPE.
Hypothesis Alloc_answers : answers Alloc.
Hypothesis sizeof_positive : 0 < sizeof_TYPE.

Lemma shallow_copy_run (m : memory TYPE) (dest src : ptr) (d s : CArray) :
  arrays m !! dest = Some d → arrays m !! src = Some s →
  shallow_copy m dest src = Ret (store_array m dest s).
Proof.
  intros Hd Hs. destruct s as [n p al].
  unfold shallow_copy, load_array, store_array.
  destruct (decide (src = dest)) as [->|Hne].
  - rewrite Hd in Hs. injection Hs as ->. rewrite Hd.
    cbn [deref mbind outcome_bind arrays storage size data allocator].
    rewrite !lookup_insert_eq. cbn. rewrite !lookup_insert_eq. cbn.
    rewrite !insert_insert_eq. reflexivity.
  - rewrite Hs, Hd. cbn [deref mbind outcome_bind arrays storage].
    rewrite !lookup_insert_eq.
    rewrite (lookup_insert_ne _ dest src) by done. rewrite Hs. cbn.
    rewrite !lookup_insert_eq.
    rewrite (lookup_insert_ne _ dest src) by done.
    rewrite (lookup_insert_ne _ dest src) by done. rewrite Hs. cbn.
    rewrite !insert_insert_eq. reflexivity.
Qed.

Lemma unstable_remove_run (m : memory TYPE) (array : ptr) (a : CArray)
    (range : list TYPE) (index : Z) (last_ : TYPE) :
  arrays m !! array = Some a → storage m !! data a = Some range →
  0 <= size a <= Z.of_nat (length range) → size a < 2 ^ 32 →
  0 <= index < size a →
  range !! Z.to_nat (size a - 1) = Some last_ →
  unstable_remove m array index
  = Ret (store_array
           (store_range m (data a) (<[Z.to_nat index := last_]> range))
           array
           {| size := size a - 1; data := data a; allocator := allocator a |}).
Proof.
  intros Ha Hrange Hsize Hmax Hindex Hlast.
  destruct (lookup_lt_is_Some_2 range (Z.to_nat index)) as [x Hx]; [lia|].
  assert (wrap_uint (size a - 1) = size a - 1) as Hwrap.
  { apply wrap_uint_small. unfold is_uint. lia. }
  unfold unstable_remove, load_array.
  rewrite Ha. cbn [deref mbind outcome_bind].
  rewrite bool_decide_eq_true_2 by lia. cbn [Assert mbind outcome_bind].
  rewrite Hrange. cbn [deref mbind outcome_bind].
  rewrite Hwrap, Hlast. cbn [deref mbind outcome_bind].
  rewrite Hx. cbn [deref mbind outcome_bind store_range arrays].
  rewrite Ha. cbn [deref mbind outcome_bind]. rewrite Hwrap. reflexivity.
Qed.

Lemma subscript_run (m : memory TYPE) (this : ptr) (a : CArray)
    (range : list TYPE) (index : Z) :
  arrays m !! this = Some a → storage m !! data a = Some range →
  0 <= index < size a →
  subscript m this index = deref (range !! Z.to_nat index).
Proof.
  intros Ha Hrange Hindex. unfold subscript, load_array.
  rewrite Ha. cbn [deref mbind outcome_bind].
  rewrite bool_decide_eq_true_2 by lia. cbn [Assert mbind outcome_bind].
  rewrite Hrange. reflexivity.
Qed.

Lemma subscript_out_of_bounds (m : memory TYPE) (this : ptr) (a : CArray)
    (index : Z) :
  arrays m !! this = Some a → size a <= index →
  subscript m this index = AssertFailure.
Proof.
  intros Ha Hindex. unfold subscript, load_array.
  rewrite Ha. cbn [deref mbind outcome_bind].
  rewrite bool_decide_eq_false_2 by lia. reflexivity.
Qed.

Lemma deep_copy_loop_copies (n : nat) :
  ∀ (i : nat) (m : memory TYPE) (dest src : ptr) (d s : CArray)
    (from to : list TYPE),
    arrays m !! src = Some s → arrays m !! dest = Some d →
    data d ≠ data s →
    storage m !! data s = Some from → storage m !! data d = Some to →
    (i + n <= length from)%nat → (i + n <= length to)%nat →
    deep_copy_loop n i m dest src
    = Ret (store_range m (data d)
             (take i to ++ take n (drop i from) ++ drop (i + n) to)).
Proof.
  induction n as [|n IH]; intros i m dest src d s from to Hs Hd Hne Hfrom Hto Hlf Hlt.
  - cbn [deep_copy_loop]. rewrite Nat.add_0_r.
    change (take 0 (drop i from)) with (@nil TYPE).
    rewrite app_nil_l, take_drop.
    destruct m as [ar st]. unfold store_range. cbn in *.
    rewrite insert_id by exact Hto. reflexivity.
  - cbn [deep_copy_loop]. unfold load_array.
    rewrite Hs. cbn [deref mbind outcome_bind]. rewrite Hfrom.
    cbn [deref mbind outcome_bind].
    destruct (lookup_lt_is_Some_2 from i) as [x Hx]; [lia|].
    destruct (lookup_lt_is_Some_2 to i) as [y Hy]; [lia|].
    rewrite Hx. cbn [deref mbind outcome_bind].
    rewrite Hd. cbn [deref mbind outcome_bind]. rewrite Hto.
    cbn [deref mbind outcome_bind]. rewrite Hy. cbn [deref mbind outcome_bind].
    rewrite (IH (S i) _ dest src d s from (<[i := x]> to));
      [|exact Hs|exact Hd|exact Hne
       |cbn; rewrite lookup_insert_ne by done; exact Hfrom
       |cbn; apply lookup_insert_eq|lia|rewrite length_insert; lia].
    unfold store_range. cbn. rewrite insert_insert_eq. do 3 f_equal.
    rewrite take_insert_lt by lia. rewrite drop_insert_lt by lia.
    rewrite (take_S_r _ _ _ Hy).
    rewrite insert_app_r_alt by (rewrite length_take; lia).
    rewrite length_take. replace (i - i `min` length to)%nat with 0%nat by lia.
    cbn. rewrite <- app_assoc. cbn.
    rewrite (drop_S _ _ _ Hx). cbn.
    replace (i + S n)%nat with (S (i + n))%nat by lia. reflexivity.
Qed.

Lemma deep_copy_run (m : memory TYPE) (dest src allocator_ : ptr)
    (d s : CArray) (from : list TYPE) :
  allocator_ ≠ NULL → dest ≠ src →
  arrays m !! dest = Some d → arrays m !! src = Some s →
  storage m !! data s = Some from →
  0 <= size s <= Z.of_nat (length from) → size s * sizeof_TYPE < 2 ^ 32 →
  deep_copy Alloc sizeof_TYPE uninitialised m dest src allocator_
  = Ret {| arrays :=
             <[dest := {| size := size s;
                          data := Alloc (storage m) allocator_
                                    (size s * sizeof_TYPE);
                          allocator := allocator d |}]> (arrays m);
           storage :=
             <[Alloc (storage m) allocator_ (size s * sizeof_TYPE)
               := take (Z.to_nat (size s)) from]> (storage m) |}.
Proof.
  intros Ha Hne Hd Hs Hfrom Hsize Hmax.
  set (p := Alloc (storage m) allocator_ (size s * sizeof_TYPE)).
  destruct (Alloc_answers (storage m) allocator_ (size s * sizeof_TYPE))
    as [Hp Hfresh]. fold p in Hp, Hfresh.
  assert (p ≠ data s) as Hps.
  { intros Heq. apply Hfresh. rewrite Heq. apply elem_of_dom. eauto. }
  unfold deep_copy, load_array.
  rewrite bool_decide_eq_true_2 by exact Ha. cbn [Assert mbind outcome_bind].
  rewrite Hs, Hd.
  cbn [deref mbind outcome_bind store_array arrays storage size data allocator].
  rewrite (lookup_insert_eq (arrays m) dest).
  cbn [deref mbind outcome_bind size data allocator].
  unfold allocate. cbn [storage].
  rewrite wrap_uint_small by (unfold is_uint; nia).
  rewrite bool_decide_eq_false_2 by exact Ha. cbv zeta. fold p.
  rewrite bool_decide_eq_false_2 by exact Hp.
  rewrite Z.div_mul by lia.
  cbn [mbind outcome_bind store_range store_array arrays storage].
  rewrite (lookup_insert_eq (arrays m) dest).
  cbn [deref mbind outcome_bind size data allocator].
  rewrite lookup_insert_eq. cbn [deref mbind outcome_bind size].
  fold p.
  rewrite (deep_copy_loop_copies _ 0 _ dest src
             {| size := size s; data := p; allocator := allocator d |} s from
             (replicate (Z.to_nat (size s)) uninitialised)).
  - unfold store_range, store_array. cbn [arrays storage data].
    rewrite !insert_insert_eq.
    rewrite drop_replicate, Nat.add_0_l, Nat.sub_diag.
    cbn [take drop replicate app]. rewrite app_nil_r. reflexivity.
  - cbn. rewrite !lookup_insert_ne by done. exact Hs.
  - cbn. apply lookup_insert_eq.
  - cbn. exact Hps.
  - cbn. rewrite lookup_insert_ne by done. exact Hfrom.
  - cbn. apply lookup_insert_eq.
  - lia.
  - rewrite length_replicate. lia.
Qed.

Lemma CallDestructor_loop_dangling (n i : nat) (m : memory TYPE) (p : ptr) :
  storage m !! p = None → (0 < n)%nat →
  CallDestructor_loop n i m p = Undefined.
Proof.
  intros Hp Hn. destruct n as [|n]; [lia|].
  cbn [CallDestructor_loop]. rewrite Hp. reflexivity.
Qed.

Lemma CArray_delete_owning (m : memory TYPE) (this : ptr) (a : CArray)
    (range : list TYPE) :
  arrays m !! this = Some a → allocator a ≠ NULL →
  storage m !! data a = Some range →
  0 <= size a <= Z.of_nat (length range) →
  CArray_delete m this
  = Ret {| arrays := delete this (arrays m);
           storage := delete (data a) (storage m) |}.
Proof.
  intros Ha Hown Hrange Hsize. unfold CArray_delete, load_array.
  rewrite Ha. cbn [deref mbind outcome_bind].
  rewrite bool_decide_eq_true_2 by exact Hown.
  rewrite (CallDestructor_loop_reaches _ 0 m (data a) range Hrange) by lia.
  cbn [mbind outcome_bind]. unfold release.
  rewrite bool_decide_eq_false_2 by exact Hown.
  rewrite Hrange. reflexivity.
Qed.

Lemma CArray_delete_dangling (m : memory TYPE) (this : ptr) (a : CArray) :
  arrays m !! this = Some a → allocator a ≠ NULL →
  storage m !! data a = None →
  CArray_delete m this = Undefined.
Proof.
  intros Ha Hown Hgone. unfold CArray_delete, load_array.
  rewrite Ha. cbn [deref mbind outcome_bind].
  rewrite bool_decide_eq_true_2 by exact Hown.
  destruct (Z.to_nat (size a)) as [|n] eqn:Hn.
  - cbn [CallDestructor_loop mbind outcome_bind]. unfold release.
    rewrite bool_decide_eq_false_2 by exact Hown. rewrite Hgone. reflexivity.
  - rewrite CallDestructor_loop_dangling by (assumption || lia). reflexivity.
Qed.
End Array_copy_facts.

Lemma fresh_block_answers : Array.answers fresh_block.
Proof.
  intros st a n. unfold fresh_block.
  pose proof (is_fresh ({[NULL]} ∪ dom st)) as Hfresh. set_solver.
Qed.

(** X12.  [CArray(size, allocator)] with an allocator that answers returns
    an owning array of [size] default-constructed elements in a block that
    was not in use: every index below [size] reads the default value, every
    index from [size] on stops in the assertion, and no other range or
    array is touched. *)
Theorem CArray_new_sized_constructs {TYPE : Type}
    (Alloc : gmap Z (list TYPE) → ptr → Z → ptr) (sizeof_TYPE : Z)
    (TYPE_new uninitialised : TYPE) (m : Array.memory TYPE) (this : ptr)
    (_size : Z) (_allocator : ptr) :
  Array.answers Alloc → 0 < sizeof_TYPE → _allocator ≠ NULL →
  0 <= _size → _size * sizeof_TYPE < 2 ^ 32 →
  ∃ m' p,
    Array.CArray_new_sized Alloc sizeof_TYPE TYPE_new uninitialised m this
      _size _allocator = Ret m'
    ∧ p ≠ NULL ∧ Array.storage m !! p = None
    ∧ Array.arrays m' !! this = Some (Array.mkCArray _size p _allocator)
    ∧ Array.storage m' !! p = Some (replicate (Z.to_nat _size) TYPE_new)
    ∧ (∀ r, r ≠ p → Array.storage m' !! r = Array.storage m !! r)
    ∧ (∀ b, b ≠ this → Array.arrays m' !! b = Array.arrays m !! b)
    ∧ (∀ index, 0 <= index < _size →
                Array.subscript m' this index = Ret TYPE_new)
    ∧ (∀ index, _size <= index →
                Array.subscript m' this index = AssertFailure).
Proof.
  intros Hans Hsz Ha Hn Hmax.
  set (p := Alloc (Array.storage m) _allocator (_size * sizeof_TYPE)).
  destruct (Hans (Array.storage m) _allocator (_size * sizeof_TYPE))
    as [Hp Hfresh]. fold p in Hp, Hfresh.
  eexists _, p. split.
  { apply CArray_new_sized_run; assumption. }
  fold p. split; [exact Hp|].
  split; [apply not_elem_of_dom; exact Hfresh|].
  split; [cbn; apply lookup_insert_eq|].
  split; [cbn; apply lookup_insert_eq|].
  split; [intros r Hr; cbn; apply lookup_insert_ne; done|].
  split; [intros b Hb; cbn; apply lookup_insert_ne; done|].
  split.
  - intros index Hindex.
    rewrite (subscript_run _ this (Array.mkCArray _size p _allocator)
               (replicate (Z.to_nat _size) TYPE_new) index);
      [|cbn; apply lookup_insert_eq|cbn; apply lookup_insert_eq|cbn; lia].
    rewrite lookup_replicate_2 by lia. reflexivity.
  - intros index Hindex.
    apply (subscript_out_of_bounds _ this (Array.mkCArray _size p _allocator));
      [cbn; apply lookup_insert_eq|cbn; lia].
Qed.

Lemma CArray_new_sized_constructs_witness :
  ∃ m' p,
    Array.CArray_new_sized fresh_block 4 0 (-1) sample_memory 2000 5 7000
    = Ret m'
    ∧ Array.arrays m' !! 2000 = Some (Array.mkCArray 5 p 7000)
    ∧ Array.subscript m' 2000 4 = Ret 0
    ∧ Array.subscript m' 2000 5 = AssertFailure.
Proof.
  destruct (CArray_new_sized_constructs fresh_block 4 0 (-1) sample_memory
              2000 5 7000 fresh_block_answers)
    as (m' & p & Hrun & _ & _ & Ha & _ & _ & _ & Hin & Hout);
    [lia|discriminate|lia|lia|].
  exists m', p. split; [exact Hrun|]. split; [exact Ha|].
  split; [apply Hin; lia|apply Hout; lia].
Defined.

(** X13.  Construction and destruction undo each other: [~CArray()] after
    [CArray(size, allocator)] returns the block, so that the ranges in use
    are those from before the construction, and removes the array object. *)
Theorem CArray_new_sized_then_delete {TYPE : Type}
    (Alloc : gmap Z (list TYPE) → ptr → Z → ptr) (sizeof_TYPE : Z)
    (TYPE_new uninitialised : TYPE) (m : Array.memory TYPE) (this : ptr)
    (_size : Z) (_allocator : ptr) :
  Array.answers Alloc → 0 < sizeof_TYPE → _allocator ≠ NULL →
  0 <= _size → _size * sizeof_TYPE < 2 ^ 32 →
  ∃ m',
    Array.CArray_new_sized Alloc sizeof_TYPE TYPE_new uninitialised m this
      _size _allocator = Ret m'
    ∧ Array.CArray_delete m' this
      = Ret {| Array.arrays := delete this (Array.arrays m);
               Array.storage := Array.storage m |}.
Proof.
  intros Hans Hsz Ha Hn Hmax.
  set (p := Alloc (Array.storage m) _allocator (_size * sizeof_TYPE)).
  destruct (Hans (Array.storage m) _allocator (_size * sizeof_TYPE))
    as [Hp Hfresh]. fold p in Hp, Hfresh.
  eexists. split.
  { apply CArray_new_sized_run; assumption. }
  fold p.
  rewrite (CArray_delete_owning _ this (Array.mkCArray _size p _allocator)
             (replicate (Z.to_nat _size) TYPE_new));
    [|cbn; apply lookup_insert_eq|cbn; exact Ha|cbn; apply lookup_insert_eq
     |cbn; rewrite length_replicate; lia].
  cbn. rewrite delete_insert_eq.
  rewrite delete_insert_id by (apply not_elem_of_dom; exact Hfresh).
  reflexivity.
Qed.

Lemma CArray_new_sized_then_delete_witness :
  ∃ m',
    Array.CArray_new_sized fresh_block 4 0 (-1) sample_memory 2000 5 7000
    = Ret m'
    ∧ Array.CArray_delete m' 2000
      = Ret {| Array.arrays := delete 2000 (Array.arrays sample_memory);
               Array.storage := Array.storage sample_memory |}.
Proof.
  apply (CArray_new_sized_then_delete fresh_block 4 0 (-1) sample_memory
           2000 5 7000 fresh_block_answers); [lia|discriminate|lia|lia].
Defined.

(** X14.  [deep_copy(dest, src, allocator)] with a null allocator stops in
    its assertion.  With a non-null allocator whose [Alloc] returns a
    non-null block that is not in use, and [src.size * sizeof(TYPE)] below
    2^32, the copy between two distinct arrays, from a [src] whose range
    holds its [size] elements, returns: [dest] then has the size of [src]
    and, as data, the block [Alloc] returned, showing the elements [src]
    shows; [src] and every range that existed are as before.  The allocator
    member of [dest] is left as it was: the allocator the copy came from is
    not recorded. *)
Theorem deep_copy_copies {TYPE : Type}
    (Alloc : gmap Z (list TYPE) → ptr → Z → ptr) (sizeof_TYPE : Z)
    (uninitialised : TYPE) (m : Array.memory TYPE)
    (dest src allocator_ : ptr) (d s : Array.CArray) :
  (allocator_ = NULL →
   Array.deep_copy Alloc sizeof_TYPE uninitialised m dest src allocator_
   = AssertFailure)
  ∧ (Array.answers Alloc → 0 < sizeof_TYPE → allocator_ ≠ NULL → dest ≠ src →
     Array.arrays m !! dest = Some d → Array.arrays m !! src = Some s →
     Array.well_formed m s → Array.size s * sizeof_TYPE < 2 ^ 32 →
     ∃ m' p elems,
       Array.deep_copy Alloc sizeof_TYPE uninitialised m dest src allocator_
       = Ret m'
       ∧ p = Alloc (Array.storage m) allocator_ (Array.size s * sizeof_TYPE)
       ∧ p ≠ NULL ∧ Array.storage m !! p = None
       ∧ Array.arrays m' !! dest
         = Some (Array.mkCArray (Array.size s) p (Array.allocator d))
       ∧ Array.arrays m' !! src = Some s
       ∧ Array.elements m s = Some elems
       ∧ Array.elements m' s = Some elems
       ∧ Array.elements m'
           (Array.mkCArray (Array.size s) p (Array.allocator d)) = Some elems
       ∧ (∀ r, r ≠ p → Array.storage m' !! r = Array.storage m !! r)
       ∧ (∀ b, b ≠ dest → Array.arrays m' !! b = Array.arrays m !! b)).
Proof.
  split.
  { intros ->. unfold Array.deep_copy.
    rewrite bool_decide_eq_false_2 by (intros H; apply H; reflexivity).
    reflexivity. }
  intros Hans Hsz Ha Hne Hd Hs (from & Hfrom & Hsize & _) Hmax.
  set (p := Alloc (Array.storage m) allocator_ (Array.size s * sizeof_TYPE)).
  destruct (Hans (Array.storage m) allocator_ (Array.size s * sizeof_TYPE))
    as [Hp Hfresh]. fold p in Hp, Hfresh.
  assert (p ≠ Array.data s) as Hps.
  { intros Heq. apply Hfresh. rewrite Heq. apply elem_of_dom. eauto. }
  eexists _, p, (take (Z.to_nat (Array.size s)) from). split.
  { apply (deep_copy_run Alloc sizeof_TYPE uninitialised Hans Hsz m dest src
             allocator_ d s from); assumption. }
  fold p. split; [reflexivity|]. split; [exact Hp|].
  split; [apply not_elem_of_dom; exact Hfresh|].
  split; [cbn; apply lookup_insert_eq|].
  split; [cbn; rewrite lookup_insert_ne by done; exact Hs|].
  split.
  { unfold Array.elements. rewrite Hfrom. cbn.
    rewrite bool_decide_eq_true_2 by lia. reflexivity. }
  split.
  { unfold Array.elements. cbn. rewrite lookup_insert_ne by done.
    rewrite Hfrom. cbn. rewrite bool_decide_eq_true_2 by lia. reflexivity. }
  split.
  { unfold Array.elements. cbn. rewrite lookup_insert_eq. cbn.
    rewrite length_take.
    rewrite bool_decide_eq_true_2 by lia.
    rewrite take_take. f_equal. f_equal. lia. }
  split; [intros r Hr; cbn; apply lookup_insert_ne; done|].
  intros b Hb. cbn. apply lookup_insert_ne. done.
Qed.

Lemma sample_array_well_formed :
  Array.well_formed sample_memory (Array.mkCArray 3 5000 7000).
Proof. exists [11; 22; 33]. split; [reflexivity|]. cbn. lia. Qed.

Lemma deep_copy_copies_witness :
  Array.deep_copy fresh_block 4 (-1) sample_memory 1016 1000 NULL
  = AssertFailure
  ∧ ∃ m' p,
      Array.deep_copy fresh_block 4 (-1) sample_memory 1016 1000 7000 = Ret m'
      ∧ p = fresh_block (Array.storage sample_memory) 7000 (3 * 4)
      ∧ Array.arrays m' !! 1016 = Some (Array.mkCArray 3 p NULL)
      ∧ Array.elements m' (Array.mkCArray 3 p NULL) = Some [11; 22; 33].
Proof.
  split.
  - destruct (deep_copy_copies fresh_block 4 (-1) sample_memory 1016 1000 NULL
                (Array.mkCArray 0 NULL NULL) (Array.mkCArray 3 5000 7000))
      as [Hnull _].
    apply Hnull. reflexivity.
  - destruct (deep_copy_copies fresh_block 4 (-1) sample_memory 1016 1000 7000
                (Array.mkCArray 0 NULL NULL) (Array.mkCArray 3 5000 7000))
      as [_ Hcopy].
    destruct (Hcopy fresh_block_answers)
      as (m' & p & elems & Hrun & Hblock & _ & _ & Hd & _ & He & _ & He' & _);
      [lia|discriminate|discriminate|reflexivity|reflexivity
      |apply sample_array_well_formed|cbn; lia|].
    cbn [Array.size Array.allocator] in Hd, He', Hblock.
    exists m', p. split; [exact Hrun|]. split; [exact Hblock|].
    split; [exact Hd|]. rewrite He'. rewrite <- He. reflexivity.
Defined.

(** X15.  The copy made into a default-constructed array is never freed by
    that array: after [CArray()], [deep_copy] and [~CArray()] the block the
    copy was allocated in is still in use, while the array that pointed to
    it is gone. *)
Theorem deep_copy_into_new_array_leaks {TYPE : Type}
    (Alloc : gmap Z (list TYPE) → ptr → Z → ptr) (sizeof_TYPE : Z)
    (uninitialised : TYPE) (m : Array.memory TYPE)
    (dest src allocator_ : ptr) (s : Array.CArray) :
  Array.answers Alloc → 0 < sizeof_TYPE → allocator_ ≠ NULL → dest ≠ src →
  Array.arrays m !! src = Some s →
  Array.well_formed m s → Array.size s * sizeof_TYPE < 2 ^ 32 →
  ∃ m1 m2 p range,
    Array.deep_copy Alloc sizeof_TYPE uninitialised (Array.CArray_new m dest)
      dest src allocator_ = Ret m1
    ∧ Array.storage m !! p = None
    ∧ Array.arrays m1 !! dest = Some (Array.mkCArray (Array.size s) p NULL)
    ∧ Array.storage m1 !! p = Some range
    ∧ Array.CArray_delete m1 dest = Ret m2
    ∧ Array.arrays m2 !! dest = None
    ∧ Array.storage m2 !! p = Some range.
Proof.
  intros Hans Hsz Ha Hne Hs (from & Hfrom & Hsize & _) Hmax.
  set (p := Alloc (Array.storage m) allocator_ (Array.size s * sizeof_TYPE)).
  destruct (Hans (Array.storage m) allocator_ (Array.size s * sizeof_TYPE))
    as [Hp Hfresh]. fold p in Hp, Hfresh.
  pose proof (deep_copy_run Alloc sizeof_TYPE uninitialised Hans Hsz
                (Array.CArray_new m dest) dest src allocator_
                (Array.mkCArray 0 NULL NULL) s from Ha Hne) as Hrun.
  cbn in Hrun. fold p in Hrun.
  rewrite lookup_insert_eq, lookup_insert_ne in Hrun by done.
  specialize (Hrun eq_refl Hs Hfrom Hsize Hmax).
  eexists _, _, p, (take (Z.to_nat (Array.size s)) from).
  split; [exact Hrun|].
  split; [apply not_elem_of_dom; exact Hfresh|].
  split; [cbn; apply lookup_insert_eq|].
  split; [cbn; apply lookup_insert_eq|].
  split.
  { unfold Array.CArray_delete, Array.load_array. cbn [Array.arrays].
    rewrite lookup_insert_eq. cbn [deref mbind outcome_bind Array.allocator].
    rewrite bool_decide_eq_false_2 by (intros H; apply H; reflexivity).
    reflexivity. }
  split; [cbn; apply lookup_delete_eq|].
  cbn. apply lookup_insert_eq.
Qed.

Lemma deep_copy_into_new_array_leaks_witness :
  ∃ m1 m2 p range,
    Array.deep_copy fresh_block 4 (-1) (Array.CArray_new sample_memory 2000)
      2000 1000 7000 = Ret m1
    ∧ Array.storage sample_memory !! p = None
    ∧ Array.CArray_delete m1 2000 = Ret m2
    ∧ Array.arrays m2 !! 2000 = None
    ∧ Array.storage m2 !! p = Some range.
Proof.
  destruct (deep_copy_into_new_array_leaks fresh_block 4 (-1) sample_memory
              2000 1000 7000 (Array.mkCArray 3 5000 7000) fresh_block_answers)
    as (m1 & m2 & p & range & H1 & H2 & _ & _ & H5 & H6 & H7);
    [lia|discriminate|discriminate|reflexivity
    |apply sample_array_well_formed|cbn; lia|].
  exists m1, m2, p, range. repeat split; assumption.
Defined.

(** X16.  A deep copy is independent of its source: [unstable_remove] on the
    copy leaves the array object of the source, its range and the elements
    it shows as they were before the copy. *)
Theorem deep_copy_is_independent {TYPE : Type}
    (Alloc : gmap Z (list TYPE) → ptr → Z → ptr) (sizeof_TYPE : Z)
    (uninitialised : TYPE) (m : Array.memory TYPE)
    (dest src allocator_ : ptr) (d s : Array.CArray) (index : Z) :
  Array.answers Alloc → 0 < sizeof_TYPE → allocator_ ≠ NULL → dest ≠ src →
  Array.arrays m !! dest = Some d → Array.arrays m !! src = Some s →
  Array.well_formed m s → Array.size s * sizeof_TYPE < 2 ^ 32 →
  0 <= index < Array.size s →
  ∃ m1 m2,
    Array.deep_copy Alloc sizeof_TYPE uninitialised m dest src allocator_
    = Ret m1
    ∧ Array.unstable_remove m1 dest index = Ret m2
    ∧ Array.arrays m2 !! src = Some s
    ∧ Array.storage m2 !! Array.data s = Array.storage m !! Array.data s
    ∧ Array.elements m2 s = Array.elements m s
    ∧ ∃ d2, Array.arrays m2 !! dest = Some d2
            ∧ Array.size d2 = Array.size s - 1.
Proof.
  intros Hans Hsz Ha Hne Hd Hs (from & Hfrom & Hsize & Hlt) Hmax Hindex.
  set (p := Alloc (Array.storage m) allocator_ (Array.size s * sizeof_TYPE)).
  destruct (Hans (Array.storage m) allocator_ (Array.size s * sizeof_TYPE))
    as [Hp Hfresh]. fold p in Hp, Hfresh.
  assert (p ≠ Array.data s) as Hps.
  { intros Heq. apply Hfresh. rewrite Heq. apply elem_of_dom. eauto. }
  pose proof (deep_copy_run Alloc sizeof_TYPE uninitialised Hans Hsz m dest
                src allocator_ d s from Ha Hne Hd Hs Hfrom Hsize Hmax) as Hrun.
  fold p in Hrun.
  set (copy := take (Z.to_nat (Array.size s)) from) in *.
  assert (length copy = Z.to_nat (Array.size s)) as Hlen.
  { unfold copy. rewrite length_take. lia. }
  destruct (lookup_lt_is_Some_2 copy (Z.to_nat (Array.size s - 1)))
    as [last_ Hlast]; [lia|].
  eexists _, _. split; [exact Hrun|]. split.
  { apply (unstable_remove_run _ dest
             (Array.mkCArray (Array.size s) p (Array.allocator d)) copy
             index last_);
      [cbn; apply lookup_insert_eq|cbn; apply lookup_insert_eq
      |cbn; lia|cbn; lia|cbn; lia|cbn; exact Hlast]. }
  cbn. split; [rewrite !lookup_insert_ne by done; exact Hs|].
  split; [rewrite !lookup_insert_ne by done; reflexivity|].
  split.
  { unfold Array.elements. cbn. rewrite !lookup_insert_ne by done.
    reflexivity. }
  eexists. split; [apply lookup_insert_eq|reflexivity].
Qed.

Lemma deep_copy_is_independent_witness :
  ∃ m1 m2,
    Array.deep_copy fresh_block 4 (-1) sample_memory 1016 1000 7000 = Ret m1
    ∧ Array.unstable_remove m1 1016 0 = Ret m2
    ∧ Array.elements m2 (Array.mkCArray 3 5000 7000) = Some [11; 22; 33].
Proof.
  destruct (deep_copy_is_independent fresh_block 4 (-1) sample_memory 1016
              1000 7000 (Array.mkCArray 0 NULL NULL)
              (Array.mkCArray 3 5000 7000) 0 fresh_block_answers)
    as (m1 & m2 & H1 & H2 & _ & _ & He & _);
    [lia|discriminate|discriminate|reflexivity|reflexivity
    |apply sample_array_well_formed|cbn; lia|cbn; lia|].
  exists m1, m2. split; [exact H1|]. split; [exact H2|].
  rewrite He. reflexivity.
Defined.

(** X17.  A shallow copy shares the range: after [shallow_copy(dest, src)]
    an [unstable_remove] on [dest] overwrites the slot in the range of
    [src] too, while [src] keeps its size; [src] then reads the former last
    element at the removed index and still shows it at its end. *)
Theorem shallow_copy_aliases {TYPE : Type} (m : Array.memory TYPE)
    (dest src : ptr) (d s : Array.CArray) (range : list TYPE) (index : Z)
    (last_ : TYPE) :
  dest ≠ src →
  Array.arrays m !! dest = Some d → Array.arrays m !! src = Some s →
  Array.storage m !! Array.data s = Some range →
  0 <= Array.size s <= Z.of_nat (length range) → Array.size s < 2 ^ 32 →
  0 <= index < Array.size s →
  range !! Z.to_nat (Array.size s - 1) = Some last_ →
  ∃ m1 m2,
    Array.shallow_copy m dest src = Ret m1
    ∧ Array.unstable_remove m1 dest index = Ret m2
    ∧ Array.arrays m2 !! dest
      = Some (Array.mkCArray (Array.size s - 1) (Array.data s)
                (Array.allocator s))
    ∧ Array.arrays m2 !! src = Some s
    ∧ Array.storage m2 !! Array.data s
      = Some (<[Z.to_nat index := last_]> range)
    ∧ Array.subscript m2 src index = Ret last_
    ∧ Array.subscript m2 src (Array.size s - 1) = Ret last_.
Proof.
  intros Hne Hd Hs Hrange Hsize Hmax Hindex Hlast.
  eexists _, _. split; [apply (shallow_copy_run m dest src d s Hd Hs)|].
  split.
  { apply (unstable_remove_run _ dest s range index last_);
      [cbn; apply lookup_insert_eq|exact Hrange|exact Hsize|exact Hmax
      |exact Hindex|exact Hlast]. }
  cbn. split; [apply lookup_insert_eq|].
  assert (∀ c c' : Array.CArray,
            <[dest := c]> (<[dest := c']> (Array.arrays m)) !! src = Some s)
    as Hsrc.
  { intros c c'. rewrite !lookup_insert_ne by done. exact Hs. }
  split; [apply Hsrc|]. split; [apply lookup_insert_eq|].
  split.
  - rewrite (subscript_run _ src s (<[Z.to_nat index := last_]> range) index);
      [|cbn; apply Hsrc|cbn; apply lookup_insert_eq|exact Hindex].
    rewrite list_lookup_insert_eq by lia. reflexivity.
  - rewrite (subscript_run _ src s (<[Z.to_nat index := last_]> range)
               (Array.size s - 1));
      [|cbn; apply Hsrc|cbn; apply lookup_insert_eq|lia].
    destruct (decide (Z.to_nat index = Z.to_nat (Array.size s - 1))) as [<-|Hd'].
    + rewrite list_lookup_insert_eq by lia. reflexivity.
    + rewrite list_lookup_insert_ne by exact Hd'. rewrite Hlast. reflexivity.
Qed.

Lemma shallow_copy_aliases_witness :
  ∃ m1 m2,
    Array.shallow_copy sample_memory 1016 1000 = Ret m1
    ∧ Array.unstable_remove m1 1016 0 = Ret m2
    ∧ Array.arrays m2 !! 1000 = Some (Array.mkCArray 3 5000 7000)
    ∧ Array.subscript m2 1000 0 = Ret 33.
Proof.
  destruct (shallow_copy_aliases sample_memory 1016 1000
              (Array.mkCArray 0 NULL NULL) (Array.mkCArray 3 5000 7000)
              [11; 22; 33] 0 33)
    as (m1 & m2 & H1 & H2 & _ & H4 & _ & H6 & _);
    [discriminate|reflexivity|reflexivity|reflexivity|cbn; lia|cbn; lia
    |cbn; lia|reflexivity|].
  exists m1, m2. repeat split; assumption.
Defined.

(** X18.  Both arrays of a shallow copy own the range: when [src] has an
    allocator, destroying [dest] after [shallow_copy(dest, src)] frees the
    range [src] still points to; reading [src] afterwards, or destroying it
    as well, which frees the same block again, is undefined behaviour. *)
Theorem shallow_copy_then_delete_dangles {TYPE : Type} (m : Array.memory TYPE)
    (dest src : ptr) (d s : Array.CArray) (range : list TYPE) :
  dest ≠ src →
  Array.arrays m !! dest = Some d → Array.arrays m !! src = Some s →
  Array.allocator s ≠ NULL →
  Array.storage m !! Array.data s = Some range →
  0 <= Array.size s <= Z.of_nat (length range) →
  ∃ m1 m2,
    Array.shallow_copy m dest src = Ret m1
    ∧ Array.CArray_delete m1 dest = Ret m2
    ∧ Array.arrays m2 !! src = Some s
    ∧ Array.storage m2 !! Array.data s = None
    ∧ Array.CArray_delete m2 src = Undefined
    ∧ (∀ index, 0 <= index < Array.size s →
                Array.subscript m2 src index = Undefined).
Proof.
  intros Hne Hd Hs Hown Hrange Hsize.
  eexists _, _. split; [apply (shallow_copy_run m dest src d s Hd Hs)|].
  split.
  { apply (CArray_delete_owning _ dest s range);
      [cbn; apply lookup_insert_eq|exact Hown|exact Hrange|exact Hsize]. }
  assert (delete dest (<[dest := s]> (Array.arrays m)) !! src = Some s)
    as Hsrc.
  { rewrite lookup_delete_ne by done. rewrite lookup_insert_ne by done.
    exact Hs. }
  cbn. split; [exact Hsrc|]. split; [apply lookup_delete_eq|]. split.
  - apply (CArray_delete_dangling _ src s);
      [exact Hsrc|exact Hown|cbn; apply lookup_delete_eq].
  - intros index Hindex. unfold Array.subscript, Array.load_array.
    cbn [Array.arrays Array.storage]. rewrite Hsrc.
    cbn [deref mbind outcome_bind].
    rewrite bool_decide_eq_true_2 by lia. cbn [Assert mbind outcome_bind].
    rewrite lookup_delete_eq. reflexivity.
Qed.

Lemma shallow_copy_then_delete_dangles_witness :
  ∃ m1 m2,
    Array.shallow_copy sample_memory 1016 1000 = Ret m1
    ∧ Array.CArray_delete m1 1016 = Ret m2
    ∧ Array.CArray_delete m2 1000 = Undefined
    ∧ Array.subscript m2 1000 0 = Undefined.
Proof.
  destruct (shallow_copy_then_delete_dangles sample_memory 1016 1000
              (Array.mkCArray 0 NULL NULL) (Array.mkCArray 3 5000 7000)
              [11; 22; 33])
    as (m1 & m2 & H1 & H2 & _ & _ & H5 & H6);
    [discriminate|reflexivity|reflexivity|discriminate|reflexivity|cbn; lia|].
  exists m1, m2. split; [exact H1|]. split; [exact H2|].
  split; [exact H5|apply H6; cbn; lia].
Defined.

(** X19.  An array without allocator frees nothing: [~CArray()] after
    [CArray()] or after [CArray(data, size)] returns whatever [data] is, and
    leaves every range in use. *)
Theorem non_owning_delete_frees_nothing {TYPE : Type} (m : Array.memory TYPE)
    (this _data : ptr) (_size : Z) :
  Array.CArray_delete (Array.CArray_new m this) this
  = Ret {| Array.arrays := delete this (Array.arrays m);
           Array.storage := Array.storage m |}
  ∧ Array.CArray_delete (Array.CArray_new_view m this _data _size) this
    = Ret {| Array.arrays := delete this (Array.arrays m);
             Array.storage := Array.storage m |}.
Proof.
  split.
  - unfold Array.CArray_delete, Array.load_array, Array.CArray_new.
    cbn [Array.store_array Array.arrays]. rewrite lookup_insert_eq.
    cbn [deref mbind outcome_bind Array.allocator].
    rewrite bool_decide_eq_false_2 by (intros H; apply H; reflexivity).
    cbn. rewrite delete_insert_eq. reflexivity.
  - unfold Array.CArray_delete, Array.load_array, Array.CArray_new_view.
    cbn [Array.store_array Array.arrays]. rewrite lookup_insert_eq.
    cbn [deref mbind outcome_bind Array.allocator].
    rewrite bool_decide_eq_false_2 by (intros H; apply H; reflexivity).
    cbn. rewrite delete_insert_eq. reflexivity.
Qed.

(** X20.  Reading after [unstable_remove(array, index)]: the removed index
    reads the former last element (when it was not the last itself), every
    other index below the new size reads what it read before, and the
    former last index now stops in the assertion. *)
Theorem unstable_remove_then_subscript {TYPE : Type} (m : Array.memory TYPE)
    (array : ptr) (a : Array.CArray) (range : list TYPE) (index : Z)
    (last_ : TYPE) :
  Array.arrays m !! array = Some a →
  Array.storage m !! Array.data a = Some range →
  0 <= Array.size a <= Z.of_nat (length range) → Array.size a < 2 ^ 32 →
  0 <= index < Array.size a →
  range !! Z.to_nat (Array.size a - 1) = Some last_ →
  ∃ m',
    Array.unstable_remove m array index = Ret m'
    ∧ Array.subscript m array (Array.size a - 1) = Ret last_
    ∧ (index < Array.size a - 1 → Array.subscript m' array index = Ret last_)
    ∧ (∀ j, 0 <= j < Array.size a - 1 → j ≠ index →
            Array.subscript m' array j = Array.subscript m array j)
    ∧ (∀ j, Array.size a - 1 <= j →
            Array.subscript m' array j = AssertFailure).
Proof.
  intros Ha Hrange Hsize Hmax Hindex Hlast.
  set (a' := Array.mkCArray (Array.size a - 1) (Array.data a)
               (Array.allocator a)).
  eexists. split.
  { apply (unstable_remove_run m array a range index last_); assumption. }
  split.
  { rewrite (subscript_run m array a range (Array.size a - 1) Ha Hrange)
      by lia. rewrite Hlast. reflexivity. }
  split; [|split].
  - intros Hlt.
    rewrite (subscript_run _ array a' (<[Z.to_nat index := last_]> range) index);
      [|cbn; apply lookup_insert_eq|cbn; apply lookup_insert_eq|cbn; lia].
    rewrite list_lookup_insert_eq by lia. reflexivity.
  - intros j Hj Hne.
    rewrite (subscript_run _ array a' (<[Z.to_nat index := last_]> range) j);
      [|cbn; apply lookup_insert_eq|cbn; apply lookup_insert_eq|cbn; lia].
    rewrite (subscript_run m array a range j Ha Hrange) by lia.
    rewrite list_lookup_insert_ne by lia. reflexivity.
  - intros j Hj.
    apply (subscript_out_of_bounds _ array a');
      [cbn; apply lookup_insert_eq|cbn; lia].
Qed.

Lemma unstable_remove_then_subscript_witness :
  ∃ m',
    Array.unstable_remove sample_memory 1000 0 = Ret m'
    ∧ Array.subscript m' 1000 0 = Ret 33
    ∧ Array.subscript m' 1000 1 = Array.subscript sample_memory 1000 1
    ∧ Array.subscript m' 1000 2 = AssertFailure.
Proof.
  destruct (unstable_remove_then_subscript sample_memory 1000
              (Array.mkCArray 3 5000 7000) [11; 22; 33] 0 33)
    as (m' & H1 & _ & H3 & H4 & H5);
    [reflexivity|reflexivity|cbn; lia|cbn; lia|cbn; lia|reflexivity|].
  exists m'. split; [exact H1|]. split; [apply H3; cbn; lia|].
  split; [apply H4; cbn; lia|apply H5; cbn; lia].
Defined.
